(** * cssReplacer: merging an inline <style> block with an external stylesheet

    A shallow embedding of [cssReplacer.py]: the rule formatter
    ([format_css_rule], [format_at_rule]), the identity key
    ([get_rule_key]), the loader ([load_css_rules]) and the merge loop of
    [merge_inline_with_external], followed by the properties of the
    stylesheet merge that are checked against them.

    The parser is a parameter, one for each of the two ways in which
    [load_css_rules] calls [cssutils.parseString]: a sheet is the list of
    its rules, and a rule carries the attributes the program reads.
    [merge_inline_with_external] is modelled from the two texts on; the
    search for the <style> element is modelled on the code points of the
    document; reading the two files and printing are left out. *)

From Stdlib Require Import Ascii String NArith.
From stdpp Require Import base decidable list sorting gmap strings.

#[local] Set Warnings "-clear-no-such-hyp".

Local Open Scope N_scope.

(** ** Python string primitives

    A Python [str] is modelled by [string]; a character stands for a code
    point below 256. *)

Module Py.

(** [str.isspace] on one code point below 256. *)
Definition isspace (c : ascii) : bool :=
  let n := N_of_ascii c in
  ((9 <=? n) && (n <=? 13)) || ((28 <=? n) && (n <=? 32))
  || (n =? 133) || (n =? 160).

(** [str.lower] on one code point below 256: the letters A-Z and the
    Latin-1 capitals (all of 192-222 but the multiplication sign). *)
Definition lower_char (c : ascii) : ascii :=
  let n := N_of_ascii c in
  if ((65 <=? n) && (n <=? 90))
     || ((192 <=? n) && (n <=? 222) && negb (n =? 215))
  then ascii_of_N (n + 32) else c.

Fixpoint lower (s : string) : string :=
  match s with
  | EmptyString => EmptyString
  | String c s' => String (lower_char c) (lower s')
  end.

Fixpoint lstrip (s : string) : string :=
  match s with
  | EmptyString => EmptyString
  | String c s' => if isspace c then lstrip s' else s
  end.

Fixpoint rstrip (s : string) : string :=
  match s with
  | EmptyString => EmptyString
  | String c s' =>
      match rstrip s' with
      | EmptyString => if isspace c then EmptyString else String c EmptyString
      | r => String c r
      end
  end.

(** [s.strip()] *)
Definition strip (s : string) : string := rstrip (lstrip s).

(** [sep.join(ls)] *)
Definition join (sep : string) (ls : list string) : string :=
  String.concat sep ls.

(** [needle in s] *)
Fixpoint contains (needle s : string) : bool :=
  String.prefix needle s
  || match s with
     | EmptyString => false
     | String _ s' => contains needle s'
     end.

(** [sorted(ls)] on a list of strings: a stable merge sort by code
    points. *)
Definition sorted (ls : list string) : list string :=
  merge_sort String.le ls.

End Py.

(** ** The rule objects of cssutils, by the attributes the program reads *)

Module Property.
Record t := mk { name : string; value : string }.
End Property.

Module Keyframe.
Record t := mk { keyText : string; style : list Property.t }.
End Keyframe.

(** A rule nested in an [@media] block: the program tells the ones with a
    [selectorText] attribute from the others and reads nothing else. *)
Inductive InnerRule :=
| WithSelector (selectorText : string) (style : list Property.t)
| WithoutSelector.

(** The rule classes that fall in the last branch of the program's
    dispatch on [rule.type], each with the [type] tag of cssutils. *)
Inductive OtherKind :=
| UNKNOWN_RULE | CHARSET_RULE | FONT_FACE_RULE | PAGE_RULE | NAMESPACE_RULE
| COMMENT.

(** The rules that are not style rules: what [format_at_rule] is called
    on. *)
Inductive AtRule :=
| CSSImportRule (href : string)
| CSSKeyframesRule (name : string) (keyframes : list Keyframe.t)
| CSSMediaRule (mediaText : string) (cssRules : list InnerRule)
| CSSOtherRule (kind : OtherKind) (cssText : string).

(** A rule of a parsed sheet. *)
Inductive CSSRule :=
| CSSStyleRule (selectorText : string) (style : list Property.t)
| At (rule : AtRule).

Coercion At : AtRule >-> CSSRule.

Definition STYLE_RULE : N := 1.
Definition IMPORT_RULE : N := 3.
Definition KEYFRAMES_RULE : N := 7.
Definition MEDIA_RULE : N := 4.

Definition other_type (k : OtherKind) : N :=
  match k with
  | UNKNOWN_RULE => 0
  | CHARSET_RULE => 2
  | FONT_FACE_RULE => 5
  | PAGE_RULE => 6
  | NAMESPACE_RULE => 10
  | COMMENT => 1001
  end.

(** [rule.type] *)
Definition type (rule : CSSRule) : N :=
  match rule with
  | CSSStyleRule _ _ => STYLE_RULE
  | At (CSSImportRule _) => IMPORT_RULE
  | At (CSSKeyframesRule _ _) => KEYFRAMES_RULE
  | At (CSSMediaRule _ _) => MEDIA_RULE
  | At (CSSOtherRule k _) => other_type k
  end.

(** ** The formatter *)

(** The line feed, [chr(10)]. *)
Definition LF : string := String "010" EmptyString.

Definition default_indent : string := "    ".

(** [f"{indent}{p.name}: {p.value};"] *)
Definition format_property (indent : string) (p : Property.t) : string :=
  indent +:+ Property.name p +:+ ": " +:+ Property.value p +:+ ";".

(** [format_css_rule(rule, indent)], on the two attributes of [rule] that it
    reads. *)
Definition format_css_rule
    (selectorText : string) (style : list Property.t) (indent : string)
    : string :=
  let sel := Py.strip selectorText in
  let props := map (format_property indent) style in
  match props with
  | [] => sel +:+ " {}"
  | _ :: _ => sel +:+ " {" +:+ LF +:+ Py.join LF props +:+ LF +:+ "}"
  end.

(** The body of the loop over the keyframes of an [@keyframes] rule. *)
Definition frame_block (indent : string) (keyframe : Keyframe.t) : string :=
  let style_lines :=
    map (format_property (indent +:+ indent)) (Keyframe.style keyframe) in
  indent +:+ Keyframe.keyText keyframe +:+ " {" +:+ LF
    +:+ Py.join LF style_lines +:+ LF +:+ indent +:+ "}".

(** The loop over the rules of an [@media] block: the rules without a
    [selectorText] are skipped. *)
Fixpoint media_inner (indent : string) (rules : list InnerRule) : list string :=
  match rules with
  | [] => []
  | WithSelector sel st :: rest =>
      (indent +:+ format_css_rule sel st (indent +:+ indent))
        :: media_inner indent rest
  | WithoutSelector :: rest => media_inner indent rest
  end.

(** [format_at_rule(rule, indent)]. In the last branch [rule_text] is
    [rule.cssText], an attribute of every rule class of cssutils. *)
Definition format_at_rule (rule : AtRule) (indent : string) : string :=
  match rule with
  | CSSImportRule href => "@import url('" +:+ href +:+ "');"
  | CSSKeyframesRule name keyframes =>
      let frames := map (frame_block indent) keyframes in
      "@keyframes " +:+ name +:+ " {" +:+ LF +:+ Py.join LF frames +:+ LF +:+ "}"
  | CSSMediaRule query rules =>
      let inner := media_inner indent rules in
      "@media " +:+ query +:+ " {" +:+ LF +:+ Py.join LF inner +:+ LF +:+ "}"
  | CSSOtherRule _ rule_text =>
      if negb (Py.contains "@charset" rule_text) then rule_text else ""
  end.

(** ** The identity key *)

(** [f"{p.name}:{p.value}"] *)
Definition prop_signature (p : Property.t) : string :=
  Property.name p +:+ ":" +:+ Property.value p.

(** [f"{head}:{';'.join(sorted(props))}"], the signature of a keyframe
    ([head] its [keyText]) or of a nested rule ([head] its selector). *)
Definition block_signature (head : string) (style : list Property.t) : string :=
  head +:+ ":" +:+ Py.join ";" (Py.sorted (map prop_signature style)).

Definition frame_signature (keyframe : Keyframe.t) : string :=
  block_signature (Keyframe.keyText keyframe) (Keyframe.style keyframe).

Fixpoint inner_content (rules : list InnerRule) : list string :=
  match rules with
  | [] => []
  | WithSelector sel st :: rest => block_signature sel st :: inner_content rest
  | WithoutSelector :: rest => inner_content rest
  end.

Definition get_rule_key (rule : CSSRule) : string :=
  match rule with
  | CSSStyleRule selectorText _ =>
      "style:" +:+ Py.lower (Py.strip selectorText)
  | At (CSSImportRule href) => "import:" +:+ href
  | At (CSSKeyframesRule name keyframes) =>
      let frames_content := map frame_signature keyframes in
      "keyframes:" +:+ name +:+ ":" +:+ Py.join ":" (Py.sorted frames_content)
  | At (CSSMediaRule query rules) =>
      "media:" +:+ query +:+ ":" +:+ Py.join ":" (Py.sorted (inner_content rules))
  | At (CSSOtherRule _ cssText) => "other:" +:+ cssText
  end.

(** ** Loading a sheet *)

(** The outcome of a Python call: a value, or an exception raised. *)
Inductive result (A : Type) :=
| Ok (a : A)
| Raise (e : string).
Arguments Ok {A} a.
Arguments Raise {A} e.

(** The loop of [load_css_rules] over the rules of a parsed sheet: the
    dictionary [rules_dict] and the list [rules_list] of keyed rules. *)
Definition load_step
    (acc : gmap string CSSRule * list (string * CSSRule)) (rule : CSSRule)
    : gmap string CSSRule * list (string * CSSRule) :=
  let key := get_rule_key rule in
  (<[key := rule]> acc.1, acc.2 ++ [(key, rule)]).

Definition load_sheet (sheet : list CSSRule)
    : gmap string CSSRule * list (string * CSSRule) :=
  foldl load_step (∅, []) sheet.

(** ** The merge *)

(** The three-way dispatch on [rule.type] that renders one rule, the same
    in both loops of the merge (lines 140-145 and 156-161). *)
Definition render (rule : CSSRule) : string :=
  match rule with
  | CSSStyleRule sel st => format_css_rule sel st default_indent
  | At r => format_at_rule r "    "
  end.

(** [final_rules] and [new_from_inline]: the external dictionary, then
    every inline entry whose key it lacks. *)
Definition final_rules (ext_rules inline_rules : gmap string CSSRule)
    : gmap string CSSRule :=
  ext_rules ∪ inline_rules.

Definition new_from_inline (ext_rules inline_rules : gmap string CSSRule) : nat :=
  size (inline_rules ∖ ext_rules).

(** The state of the two loops: [lines] and [processed_keys]. *)
Definition merge_state : Type := list string * gset string.

(** One turn of the loop over [inline_list]. *)
Definition inline_step (st : merge_state) (entry : string * CSSRule)
    : merge_state :=
  let '(key, rule) := entry in
  if decide (key ∈ st.2) then st
  else (st.1 ++ [render rule], {[key]} ∪ st.2).

Definition inline_loop (inline_list : list (string * CSSRule))
    (st : merge_state) : merge_state :=
  foldl inline_step st inline_list.

(** One turn of the loop over [ext_list] (line 136). The loop over
    [inline_list] (line 154) is indented as a part of its body and runs
    after the rule is appended and its key marked; a turn that meets a
    processed key leaves by [continue] and skips it with the rest of the
    body. *)
Definition ext_step (inline_list : list (string * CSSRule))
    (st : merge_state) (entry : string * CSSRule) : merge_state :=
  let '(key, rule) := entry in
  if decide (key ∈ st.2) then st
  else inline_loop inline_list (st.1 ++ [render rule], {[key]} ∪ st.2).

Definition ext_loop (ext_list inline_list : list (string * CSSRule))
    (st : merge_state) : merge_state :=
  foldl (ext_step inline_list) st ext_list.

(** [lines] when both loops are over. *)
Definition merge_lines (ext_list inline_list : list (string * CSSRule))
    : list string :=
  (ext_loop ext_list inline_list ([], ∅)).1.

(** [final_css] *)
Definition final_css (lines : list string) : string :=
  Py.strip (Py.join LF lines).

(** The merge of two parsed sheets. *)
Definition merge_sheets (ext_sheet inline_sheet : list CSSRule) : string :=
  final_css (merge_lines (load_sheet ext_sheet).2 (load_sheet inline_sheet).2).

Section Parser.

(** The two calls of [cssutils.parseString], the sheet each returns read as
    the list of its rules: [parseString_utf8] is the call of line 80, on
    the text and with [encoding='utf-8']; [parseString] is the call of
    line 83, without an encoding, which the handler makes on the empty
    text. The two are kept apart because cssutils heads the sheet with a
    charset rule when it is given an encoding. *)
Variable parseString_utf8 : string → result (list CSSRule).
Variable parseString : string → result (list CSSRule).

(** The [try] of [load_css_rules]: the sheet parsed from the text, and
    on an exception the sheet that the second call parses from the empty
    text. *)
Definition parse_or_empty (css_text : string) : result (list CSSRule) :=
  match parseString_utf8 css_text with
  | Ok sheet => Ok sheet
  | Raise e => parseString ""
  end.

Definition load_css_rules (css_text : string)
    : result (gmap string CSSRule * list (string * CSSRule)) :=
  match parse_or_empty css_text with
  | Ok sheet => Ok (load_sheet sheet)
  | Raise e => Raise e
  end.

(** [merge_inline_with_external] from the two texts on: [css_content],
    the text of the stylesheet file, and [inline_css], the text found in
    the <style> element. The value is [final_css]. *)
Definition merge_inline_with_external (css_content inline_css : string)
    : result string :=
  match load_css_rules css_content with
  | Raise e => Raise e
  | Ok (ext_rules, ext_list) =>
      match load_css_rules inline_css with
      | Raise e => Raise e
      | Ok (inline_rules, inline_list) =>
          Ok (final_css (merge_lines ext_list inline_list))
      end
  end.

End Parser.


(** ** What the two loops emit

    [fresh seen l] keeps of [l] the first entry of every key outside [seen];
    [emitted] lists the keyed rules behind [lines], in order. *)

Fixpoint fresh (seen : gset string) (l : list (string * CSSRule))
    : list (string * CSSRule) :=
  match l with
  | [] => []
  | (key, rule) :: rest =>
      if decide (key ∈ seen) then fresh seen rest
      else (key, rule) :: fresh ({[key]} ∪ seen) rest
  end.

Definition keys (l : list (string * CSSRule)) : gset string :=
  list_to_set l.*1.

Definition emitted (ext_list inline_list : list (string * CSSRule))
    : list (string * CSSRule) :=
  match ext_list with
  | [] => []
  | (key, rule) :: rest =>
      (key, rule) :: fresh {[key]} inline_list
        ++ fresh ({[key]} ∪ keys inline_list) rest
  end.

Definition render_entry (entry : string * CSSRule) : string := render entry.2.

(** The rules of a sheet, each with its key. *)
Definition keyed (sheet : list CSSRule) : list (string * CSSRule) :=
  map (λ rule, (get_rule_key rule, rule)) sheet.

(** The rules that [format_at_rule] renders in its last branch. *)
Definition in_last_branch (rule : CSSRule) : bool :=
  match rule with
  | At (CSSOtherRule _ _) => true
  | _ => false
  end.

(** Every character of the string is white space. *)
Fixpoint all_space (s : string) : bool :=
  match s with
  | EmptyString => true
  | String c s' => Py.isspace c && all_space s'
  end.

(** ** Reordering the content of a keyframes or media rule *)

(** The same frame with its declarations in another order. *)
Definition frame_reordered (f g : Keyframe.t) : Prop :=
  Keyframe.keyText f = Keyframe.keyText g
  ∧ Keyframe.style f ≡ₚ Keyframe.style g.

(** The same frames in another order, each with its declarations in
    another order. *)
Definition frames_reordered (fs gs : list Keyframe.t) : Prop :=
  ∃ fs', fs ≡ₚ fs' ∧ Forall2 frame_reordered fs' gs.

(** The same nested rule with its declarations in another order. *)
Inductive inner_reordered : InnerRule → InnerRule → Prop :=
| reordered_selector sel st1 st2 :
    st1 ≡ₚ st2 → inner_reordered (WithSelector sel st1) (WithSelector sel st2)
| reordered_other : inner_reordered WithoutSelector WithoutSelector.

Definition rules_reordered (rs ss : list InnerRule) : Prop :=
  ∃ rs', rs ≡ₚ rs' ∧ Forall2 inner_reordered rs' ss.

(** ** Sample rules and texts *)

Definition color (v : string) : Property.t := Property.mk "color" v.

Definition rule_a_red : CSSRule := CSSStyleRule ".a" [color "red"].
Definition rule_a_blue : CSSRule := CSSStyleRule ".a" [color "blue"].
Definition rule_b_red : CSSRule := CSSStyleRule ".b" [color "red"].
Definition rule_b_blue : CSSRule := CSSStyleRule ".b" [color "blue"].
Definition rule_b_green : CSSRule := CSSStyleRule ".b" [color "green"].
Definition rule_c_red : CSSRule := CSSStyleRule ".c" [color "red"].
Definition import_x : CSSRule := CSSImportRule "x.css".

(** The two [@keyframes spin] blocks of Example 4, and their like for a
    media rule. *)
Definition spin_external : list Keyframe.t :=
  [ Keyframe.mk "0%"
      [Property.mk "transform" "rotate(0deg)"; Property.mk "opacity" "1"];
    Keyframe.mk "100%" [Property.mk "transform" "rotate(360deg)"] ].

Definition spin_inline : list Keyframe.t :=
  [ Keyframe.mk "100%" [Property.mk "transform" "rotate(360deg)"];
    Keyframe.mk "0%"
      [Property.mk "opacity" "1"; Property.mk "transform" "rotate(0deg)"] ].

Definition print_external : list InnerRule :=
  [ WithSelector ".a" [color "red"; Property.mk "top" "0"];
    WithoutSelector;
    WithSelector ".b" [] ].

Definition print_inline : list InnerRule :=
  [ WithoutSelector;
    WithSelector ".a" [Property.mk "top" "0"; color "red"];
    WithSelector ".b" [] ].

Definition dquote : string := String "034" EmptyString.

(** The rule of the text [@charset "UTF-8";]. *)
Definition charset_utf8 : CSSRule :=
  CSSOtherRule CHARSET_RULE ("@charset " +:+ dquote +:+ "UTF-8" +:+ dquote +:+ ";").

(** The text [@charset "UTF-8";.a{color:red}]. *)
Definition sample_external_text : string :=
  "@charset " +:+ dquote +:+ "UTF-8" +:+ dquote +:+ ";.a{color:red}".

(** The charset rule that heads a sheet parsed with [encoding='utf-8']. *)
Definition charset_head : CSSRule :=
  CSSOtherRule CHARSET_RULE ("@charset " +:+ dquote +:+ "utf-8" +:+ dquote +:+ ";").

(** A stand-in for the call of [cssutils.parseString] without an encoding:
    it knows three texts and raises on every other one. *)
Definition sample_parse (text : string) : result (list CSSRule) :=
  if decide (text = "") then Ok []
  else if decide (text = sample_external_text) then Ok [charset_utf8; rule_a_red]
  else if decide (text = ".b{color:green}") then Ok [rule_b_green]
  else Raise "parse error".

(** A stand-in for the call with [encoding='utf-8']: every sheet it returns
    is headed by a charset rule, the sheet of the empty text too, and it
    raises on the texts it does not know. *)
Definition sample_parse_utf8 (text : string) : result (list CSSRule) :=
  if decide (text = "") then Ok [charset_head]
  else if decide (text = sample_external_text) then Ok [charset_utf8; rule_a_red]
  else if decide (text = ".a{color:red}") then Ok [charset_head; rule_a_red]
  else if decide (text = ".a{color:blue}.b{color:green}")
  then Ok [charset_head; rule_a_blue; rule_b_green]
  else if decide (text = ".b{color:green}") then Ok [charset_head; rule_b_green]
  else if decide (text = "@import url('x.css');") then Ok [charset_head; import_x]
  else Raise "parse error".

(** ** The rest of [merge_inline_with_external] *)

(** The loop that fills [final_rules] and counts [new_from_inline], over
    the items of [inline_rules] in the order the dictionary yields them. *)
Definition final_step (acc : gmap string CSSRule * nat)
    (item : string * CSSRule) : gmap string CSSRule * nat :=
  let '(key, rule) := item in
  match acc.1 !! key with
  | None => (<[key := rule]> acc.1, S acc.2)
  | Some _ => acc
  end.

Definition final_rules_loop (ext_rules : gmap string CSSRule)
    (items : list (string * CSSRule)) : gmap string CSSRule * nat :=
  foldl final_step (ext_rules, 0%nat) items.

(** ** The search for the <style> element

    The text of the document is read as the list of its code points,
    whatever they are: under [re.IGNORECASE] the search accepts a character
    above 255 in the place of a letter of the pattern. *)

(** The code points of a text of characters below 256. *)
Fixpoint code_points (s : string) : list N :=
  match s with
  | EmptyString => []
  | String c s' => N_of_ascii c :: code_points s'
  end.

Module Unicode.

(** [str.isspace] on one code point. *)
Definition isspace (c : N) : bool :=
  ((9 <=? c) && (c <=? 13)) || ((28 <=? c) && (c <=? 32))
  || (c =? 133) || (c =? 160) || (c =? 5760)
  || ((8192 <=? c) && (c <=? 8202))
  || (c =? 8232) || (c =? 8233) || (c =? 8239) || (c =? 8287)
  || (c =? 12288).

Fixpoint lstrip (s : list N) : list N :=
  match s with
  | [] => []
  | c :: s' => if isspace c then lstrip s' else s
  end.

Fixpoint rstrip (s : list N) : list N :=
  match s with
  | [] => []
  | c :: s' =>
      match rstrip s' with
      | [] => if isspace c then [] else [c]
      | r => c :: r
      end
  end.

(** [s.strip()] *)
Definition strip (s : list N) : list N := rstrip (lstrip s).

End Unicode.

(** The code points that a character of the pattern of line 108 matches
    under [re.IGNORECASE]. The cased characters of the pattern are the
    letters s, t, y, l and e: each matches itself and its capital, and s
    matches the long s (U+017F) as well. Every other character of the
    pattern matches itself only. *)
Definition ignorecase (a : ascii) : list N :=
  match N_of_ascii a with
  | 115 => [115; 83; 383]
  | 116 => [116; 84]
  | 121 => [121; 89]
  | 108 => [108; 76]
  | 101 => [101; 69]
  | p => [p]
  end.

Definition matches (a : ascii) (c : N) : bool := existsb (N.eqb c) (ignorecase a).

(** A literal of the pattern matched at the head of the text:
    [match_literal lit s] is the text behind the literal [lit] when [s]
    starts with it. *)
Fixpoint match_literal (lit : string) (s : list N) : option (list N) :=
  match lit with
  | EmptyString => Some s
  | String a lit' =>
      match s with
      | [] => None
      | c :: s' => if matches a c then match_literal lit' s' else None
      end
  end.

(** The literal is matched at some position of the text. *)
Fixpoint occurs (lit : string) (s : list N) : bool :=
  match match_literal lit s with
  | Some _ => true
  | None =>
      match s with
      | [] => false
      | _ :: s' => occurs lit s'
      end
  end.

(** The greedy class that excludes the closing angle bracket, then that
    bracket: the class can only stop at the first bracket, so this is the
    text behind the first one. *)
Fixpoint after_bracket (s : list N) : option (list N) :=
  match s with
  | [] => None
  | c :: s' => if c =? 62 then Some s' else after_bracket s'
  end.

(** The lazy group, any characters under [re.DOTALL], then the closing
    tag: the shortest text in front of a closing tag. *)
Fixpoint lazy_group (s : list N) : option (list N) :=
  match match_literal "</style>" s with
  | Some _ => Some []
  | None =>
      match s with
      | [] => None
      | c :: s' =>
          match lazy_group s' with
          | Some group => Some (c :: group)
          | None => None
          end
      end
  end.

(** The pattern matched at the head of the text: [group(1)]. *)
Definition match_style (s : list N) : option (list N) :=
  match match_literal "<style" s with
  | None => None
  | Some rest =>
      match after_bracket rest with
      | None => None
      | Some body => lazy_group body
      end
  end.

(** [re.search]: the match at the first position that has one. *)
Fixpoint search_style (s : list N) : option (list N) :=
  match match_style s with
  | Some group => Some group
  | None =>
      match s with
      | [] => None
      | _ :: s' => search_style s'
      end
  end.

(** [inline_css] (line 109) *)
Definition extract_inline_css (html_content : list N) : list N :=
  match search_style html_content with
  | Some group => Unicode.strip group
  | None => []
  end.

(** The block printed at the end of the run (line 172). *)
Definition style_block (css : list N) : list N :=
  code_points "<style>" ++ [10] ++ css ++ [10] ++ code_points "</style>".

(** The nested rules that have a [selectorText]. *)
Definition has_selector (rule : InnerRule) : bool :=
  match rule with
  | WithSelector _ _ => true
  | WithoutSelector => false
  end.

(** What an equation between two keys says of the two rules. *)
Definition same_kind (r1 r2 : CSSRule) : Prop :=
  match r1, r2 with
  | CSSStyleRule sel1 _, CSSStyleRule sel2 _ =>
      Py.lower (Py.strip sel1) = Py.lower (Py.strip sel2)
  | At (CSSImportRule href1), At (CSSImportRule href2) => href1 = href2
  | At (CSSKeyframesRule _ _), At (CSSKeyframesRule _ _) => True
  | At (CSSMediaRule _ _), At (CSSMediaRule _ _) => True
  | At (CSSOtherRule _ text1), At (CSSOtherRule _ text2) => text1 = text2
  | _, _ => False
  end.

(** * Properties *)

(** ** The string primitives on examples *)

Example strip_lower_selector : Py.lower (Py.strip "  .Nav > A ") = ".nav > a".
Proof. reflexivity. Qed.

Example sorted_by_code_point :
  Py.sorted ["b:1"; "a:2"; "B"; "a"] = ["B"; "a"; "a:2"; "b:1"].
Proof. vm_compute. reflexivity. Qed.

Example join_lines : Py.join ";" ["a:1"; "b:2"; "c:3"] = "a:1;b:2;c:3".
Proof. reflexivity. Qed.

Example contains_charset :
  Py.contains "@charset" "/* no @charset here */" = true
  ∧ Py.contains "@charset" "@font-face {}" = false.
Proof. split; reflexivity. Qed.

(** ** The two loops *)

Section Loops.

Implicit Types (l ext inline : list (string * CSSRule)) (st : merge_state).
Implicit Types (seen : gset string).

Lemma keys_cons k r l : keys ((k, r) :: l) = {[k]} ∪ keys l.
Proof. reflexivity. Qed.

Lemma keys_app l1 l2 : keys (l1 ++ l2) = keys l1 ∪ keys l2.
Proof. unfold keys. rewrite fmap_app, list_to_set_app_L. reflexivity. Qed.

Lemma elem_of_keys k l : k ∈ keys l ↔ ∃ r, (k, r) ∈ l.
Proof.
  unfold keys. rewrite elem_of_list_to_set, list_elem_of_fmap. split.
  - intros [[k' r] [-> Hin]]. eauto.
  - intros [r Hin]. exists (k, r). auto.
Qed.

Lemma fresh_saturated seen l : keys l ⊆ seen → fresh seen l = [].
Proof.
  induction l as [|[k r] l IH]; simpl; intros Hsub; [done|].
  rewrite keys_cons in Hsub.
  rewrite decide_True by set_solver. apply IH. set_solver.
Qed.

Lemma fresh_app seen l1 l2 :
  fresh seen (l1 ++ l2) = fresh seen l1 ++ fresh (keys l1 ∪ seen) l2.
Proof.
  revert seen. induction l1 as [|[k r] l1 IH]; intros seen; simpl.
  - f_equal. unfold keys. simpl. set_solver.
  - rewrite keys_cons. case_decide as Hk.
    + rewrite IH. do 2 f_equal. set_solver.
    + rewrite IH. simpl. do 3 f_equal. set_solver.
Qed.

Lemma keys_fresh seen l : keys (fresh seen l) = keys l ∖ seen.
Proof.
  revert seen. induction l as [|[k r] l IH]; intros seen; simpl.
  - unfold keys. simpl. set_solver.
  - case_decide as Hk; rewrite !keys_cons, ?IH.
    + set_solver.
    + apply set_eq. intros x. set_unfold.
      destruct (decide (x = k)); naive_solver.
Qed.

Lemma NoDup_fresh seen l : NoDup (fresh seen l).*1.
Proof.
  revert seen. induction l as [|[k r] l IH]; intros seen; simpl.
  - constructor.
  - case_decide as Hk; [apply IH|]. simpl. constructor; [|apply IH].
    intros Hin. apply (elem_of_list_to_set (C := gset string)) in Hin.
    change (k ∈ keys (fresh ({[k]} ∪ seen) l)) in Hin.
    rewrite keys_fresh in Hin. set_solver.
Qed.

Lemma fresh_sublist seen l : sublist (fresh seen l) l.
Proof.
  revert seen. induction l as [|[k r] l IH]; intros seen; simpl.
  - constructor.
  - case_decide; [apply sublist_cons | apply sublist_skip]; apply IH.
Qed.

(** The loop over the inline list appends the fresh entries and marks
    every key of the list. *)
Lemma inline_loop_fresh inline st :
  inline_loop inline st
  = (st.1 ++ map render_entry (fresh st.2 inline), keys inline ∪ st.2).
Proof.
  revert st. induction inline as [|[k r] l IH]; intros [lines seen].
  - simpl. rewrite app_nil_r. f_equal. unfold keys. simpl. set_solver.
  - unfold inline_loop in *. simpl. case_decide as Hk.
    + rewrite IH. simpl. f_equal. rewrite keys_cons. set_solver.
    + rewrite IH. simpl. rewrite <- app_assoc. simpl. f_equal.
      rewrite keys_cons. set_solver.
Qed.

(** Once every inline key is marked, the loop over the external list no
    longer reaches an inline rule. *)
Lemma ext_loop_saturated ext inline st :
  keys inline ⊆ st.2 →
  ext_loop ext inline st
  = (st.1 ++ map render_entry (fresh st.2 ext), keys ext ∪ st.2).
Proof.
  revert st. induction ext as [|[k r] l IH]; intros [lines seen] Hsub.
  - simpl. rewrite app_nil_r. f_equal. unfold keys. simpl. set_solver.
  - unfold ext_loop in *. simpl in *. case_decide as Hk.
    + rewrite IH by done. simpl. f_equal. rewrite keys_cons. set_solver.
    + rewrite inline_loop_fresh. simpl.
      rewrite (fresh_saturated _ inline) by set_solver.
      rewrite IH; cbn [fst snd]; [|clear IH; set_solver].
      rewrite app_nil_r, <- app_assoc, keys_cons. simpl. f_equal.
      * do 4 f_equal. clear IH. set_solver.
      * clear IH. set_solver.
Qed.

Lemma ext_loop_cons entry ext inline st :
  ext_loop (entry :: ext) inline st
  = ext_loop ext inline (ext_step inline st entry).
Proof. reflexivity. Qed.

Lemma merge_lines_nil inline : merge_lines [] inline = [].
Proof. reflexivity. Qed.

(** [lines] is the rendering of [emitted]. *)
Lemma merge_lines_emitted ext inline :
  merge_lines ext inline = map render_entry (emitted ext inline).
Proof.
  destruct ext as [|[k r] ext]; [done|].
  unfold merge_lines. rewrite ext_loop_cons. unfold ext_step.
  rewrite decide_False by set_solver.
  rewrite inline_loop_fresh. cbn [fst snd].
  rewrite ext_loop_saturated; cbn [fst snd]; [|set_solver].
  unfold emitted. simpl. rewrite map_app. f_equal.
  f_equal; do 2 f_equal; set_solver.
Qed.

End Loops.

(** ** The dispatch on [rule.type] *)

Lemma type_dispatch (rule : CSSRule) :
  (type rule = STYLE_RULE ↔ ∃ sel st, rule = CSSStyleRule sel st)
  ∧ (type rule = IMPORT_RULE ↔ ∃ href, rule = At (CSSImportRule href))
  ∧ (type rule = KEYFRAMES_RULE ↔ ∃ n fs, rule = At (CSSKeyframesRule n fs))
  ∧ (type rule = MEDIA_RULE ↔ ∃ q rs, rule = At (CSSMediaRule q rs)).
Proof.
  destruct rule as [sel st|[href|n fs|q rs|[] text]]; cbn;
    repeat split; intros H; try discriminate H; eauto;
    destruct H as (? & H); try destruct H as (? & H); discriminate H.
Qed.

(** ** Sorting *)

Lemma sorted_Permutation (l1 l2 : list string) :
  l1 ≡ₚ l2 → Py.sorted l1 = Py.sorted l2.
Proof.
  intros Hperm. unfold Py.sorted.
  apply (Sorted_unique String.le); try apply Sorted_merge_sort; try apply _.
  rewrite !merge_sort_Permutation. exact Hperm.
Qed.

Lemma block_signature_Permutation head (st1 st2 : list Property.t) :
  st1 ≡ₚ st2 → block_signature head st1 = block_signature head st2.
Proof.
  intros Hperm. unfold block_signature. do 3 f_equal.
  apply sorted_Permutation. apply (fmap_Permutation prop_signature), Hperm.
Qed.

Lemma frame_signature_reordered (f g : Keyframe.t) :
  frame_reordered f g → frame_signature f = frame_signature g.
Proof.
  intros [Hkey Hperm]. unfold frame_signature. rewrite Hkey.
  apply block_signature_Permutation, Hperm.
Qed.

Lemma inner_content_Permutation (rs ss : list InnerRule) :
  rs ≡ₚ ss → inner_content rs ≡ₚ inner_content ss.
Proof.
  induction 1 as [|r rs ss _ IH|r1 r2 rs|rs ss ts _ IH1 _ IH2].
  - reflexivity.
  - destruct r; simpl; [apply perm_skip|]; exact IH.
  - destruct r1, r2; simpl; try reflexivity. apply perm_swap.
  - etransitivity; eassumption.
Qed.

Lemma inner_content_reordered (rs ss : list InnerRule) :
  Forall2 inner_reordered rs ss → inner_content rs = inner_content ss.
Proof.
  induction 1 as [|r s rs ss Hrs _ IH]; [reflexivity|].
  destruct Hrs as [sel st1 st2 Hperm|]; simpl; [|exact IH].
  rewrite IH. f_equal. apply block_signature_Permutation, Hperm.
Qed.

(** ** Identity keys *)

(** C4. Key stability under reordering: the key of a keyframes rule is
    unchanged when its frames, and the declarations within any frame, are
    permuted; the key of a media rule is unchanged when its nested rules,
    and the declarations within any of them, are permuted. *)
Theorem key_stable_under_reordering :
  (∀ name fs gs,
      frames_reordered fs gs →
      get_rule_key (CSSKeyframesRule name fs)
      = get_rule_key (CSSKeyframesRule name gs))
  ∧ (∀ query rs ss,
      rules_reordered rs ss →
      get_rule_key (CSSMediaRule query rs)
      = get_rule_key (CSSMediaRule query ss)).
Proof.
  split.
  - intros name fs gs (fs' & Hperm & Hall).
    assert (Py.sorted (map frame_signature fs)
            = Py.sorted (map frame_signature gs)) as Hsorted.
    { transitivity (Py.sorted (map frame_signature fs')).
      - apply sorted_Permutation, (fmap_Permutation frame_signature), Hperm.
      - f_equal. clear Hperm.
        induction Hall as [|f g fs' gs Hfg _ IH]; [reflexivity|].
        simpl. rewrite IH. f_equal. apply frame_signature_reordered, Hfg. }
    unfold get_rule_key. rewrite Hsorted. reflexivity.
  - intros query rs ss (rs' & Hperm & Hall).
    assert (Py.sorted (inner_content rs) = Py.sorted (inner_content ss))
      as Hsorted.
    { rewrite <- (inner_content_reordered _ _ Hall).
      apply sorted_Permutation, inner_content_Permutation, Hperm. }
    unfold get_rule_key. rewrite Hsorted. reflexivity.
Qed.

(** Example 4: the two spin blocks have one key, and the merge keeps the
    external one only. *)
Lemma key_stable_under_reordering_witness :
  frames_reordered spin_external spin_inline
  ∧ get_rule_key (CSSKeyframesRule "spin" spin_external)
    = get_rule_key (CSSKeyframesRule "spin" spin_inline)
  ∧ rules_reordered print_external print_inline
  ∧ get_rule_key (CSSMediaRule "print" print_external)
    = get_rule_key (CSSMediaRule "print" print_inline)
  ∧ merge_lines (load_sheet [At (CSSKeyframesRule "spin" spin_external)]).2
                (load_sheet [At (CSSKeyframesRule "spin" spin_inline)]).2
    = [format_at_rule (CSSKeyframesRule "spin" spin_external) "    "].
Proof.
  assert (frames_reordered spin_external spin_inline) as Hframes.
  { exists [ Keyframe.mk "100%" [Property.mk "transform" "rotate(360deg)"];
             Keyframe.mk "0%"
               [Property.mk "transform" "rotate(0deg)";
                Property.mk "opacity" "1"] ].
    split; [apply perm_swap|].
    repeat constructor. }
  assert (rules_reordered print_external print_inline) as Hrules.
  { exists [ WithoutSelector;
             WithSelector ".a" [color "red"; Property.mk "top" "0"];
             WithSelector ".b" [] ].
    split; [apply perm_swap|].
    repeat constructor. }
  split; [exact Hframes|].
  split; [exact (proj1 key_stable_under_reordering "spin" _ _ Hframes)|].
  split; [exact Hrules|].
  split; [exact (proj2 key_stable_under_reordering "print" _ _ Hrules)|].
  vm_compute. reflexivity.
Defined.

(** ** The loader *)

Lemma load_sheet_snoc (sheet : list CSSRule) (rule : CSSRule) :
  load_sheet (sheet ++ [rule]) = load_step (load_sheet sheet) rule.
Proof. unfold load_sheet. rewrite foldl_app. reflexivity. Qed.

(** [rules_list] pairs every rule of the sheet, in order, with its key. *)
Lemma load_sheet_list (sheet : list CSSRule) :
  (load_sheet sheet).2 = map (λ rule, (get_rule_key rule, rule)) sheet.
Proof.
  induction sheet as [|rule sheet IH] using rev_ind; [reflexivity|].
  rewrite load_sheet_snoc, map_app. simpl. rewrite IH. reflexivity.
Qed.

Lemma keyed_app (s1 s2 : list CSSRule) : keyed (s1 ++ s2) = keyed s1 ++ keyed s2.
Proof. apply map_app. Qed.

Lemma load_sheet_dict_snoc (sheet : list CSSRule) (rule : CSSRule) :
  (load_sheet (sheet ++ [rule])).1
  = <[get_rule_key rule := rule]> (load_sheet sheet).1.
Proof. rewrite load_sheet_snoc. reflexivity. Qed.

Lemma load_sheet_dom (sheet : list CSSRule) :
  dom (load_sheet sheet).1 = keys (load_sheet sheet).2.
Proof.
  induction sheet as [|rule sheet IH] using rev_ind.
  - unfold keys. simpl. apply dom_empty_L.
  - rewrite load_sheet_dict_snoc, dom_insert_L, IH, !load_sheet_list.
    fold (keyed (sheet ++ [rule])) (keyed sheet).
    rewrite keyed_app, keys_app. unfold keyed at 3. simpl map.
    rewrite keys_cons. unfold keys at 3. simpl.
    rewrite (right_id_L ∅ (∪)). apply (comm_L (∪)).
Qed.

(** ** The merge, in closed form *)

(** What the loops emit: the first external rule, then the inline rules,
    then the other external rules, each key at its first occurrence. *)
Lemma emitted_fresh entry ext inline :
  emitted (entry :: ext) inline = fresh ∅ (entry :: inline ++ ext).
Proof.
  destruct entry as [k r]. simpl. rewrite decide_False by set_solver.
  rewrite fresh_app. do 3 f_equal; set_solver.
Qed.

Lemma emitted_NoDup ext inline : NoDup (emitted ext inline).*1.
Proof.
  destruct ext as [|entry ext]; [constructor|].
  rewrite emitted_fresh. apply NoDup_fresh.
Qed.

Lemma emitted_keys ext inline :
  ext ≠ [] → keys (emitted ext inline) = keys ext ∪ keys inline.
Proof.
  destruct ext as [|[k r] ext]; [done|]. intros _.
  rewrite emitted_fresh, keys_fresh, !keys_cons, keys_app. set_solver.
Qed.

Lemma merge_lines_length ext inline :
  ext ≠ [] →
  length (merge_lines ext inline) = size (keys ext ∪ keys inline).
Proof.
  intros Hne. rewrite merge_lines_emitted, length_map.
  rewrite <- (emitted_keys ext inline Hne). unfold keys.
  rewrite size_list_to_set by apply emitted_NoDup.
  rewrite length_fmap. reflexivity.
Qed.

(** A key that the inline list carries is emitted with an inline rule,
    unless it is the key of the first external rule. *)
Lemma emitted_inline_rule entry ext inline k rule :
  (k, rule) ∈ emitted (entry :: ext) inline →
  k ≠ entry.1 →
  k ∈ keys inline →
  (k, rule) ∈ inline.
Proof.
  destruct entry as [k0 r0]. simpl. intros Hin Hne Hk.
  apply elem_of_cons in Hin as [Heq|Hin]; [congruence|].
  apply elem_of_app in Hin as [Hin|Hin].
  - apply (sublist_subseteq _ _ (fresh_sublist {[k0]} inline)), Hin.
  - exfalso.
    assert (k ∈ keys (fresh ({[k0]} ∪ keys inline) ext)) as Hfresh
      by (apply elem_of_keys; eauto).
    rewrite keys_fresh in Hfresh. set_solver.
Qed.

(** C3. The key of a style rule is "style:" followed by its selector,
    trimmed and in lower case, and the declarations have no part in it.
    Of the style rules of one selector the run emits one, but not the
    external one in every case: a key that the inline list carries is
    emitted with an inline rule, unless it is the key of the first
    external rule. In Example 1, each sheet headed by the charset rule of
    the parser, the inline [.a{color:blue}] is kept and the external
    [.a{color:red}] is dropped; so it is when the external [.a] follows
    another style rule. *)
Theorem same_selector_keeps_inline_rule :
  get_rule_key (CSSStyleRule "  .Nav > A " [color "red"]) = "style:.nav > a"
  ∧ (∀ sel st1 st2,
      get_rule_key (CSSStyleRule sel st1) = get_rule_key (CSSStyleRule sel st2))
  ∧ (∀ entry ext_list inline_list,
      merge_lines (entry :: ext_list) inline_list
      = map render_entry (emitted (entry :: ext_list) inline_list)
      ∧ NoDup (emitted (entry :: ext_list) inline_list).*1
      ∧ ∀ k rule,
          (k, rule) ∈ emitted (entry :: ext_list) inline_list →
          k ≠ entry.1 →
          k ∈ keys inline_list →
          (k, rule) ∈ inline_list)
  ∧ merge_lines (load_sheet [charset_head; rule_a_red]).2
                (load_sheet [charset_head; rule_a_blue; rule_b_green]).2
    = [""; ".a {
    color: blue;
}"; ".b {
    color: green;
}"]
  ∧ merge_sheets [charset_head; rule_a_red]
                 [charset_head; rule_a_blue; rule_b_green]
    = ".a {
    color: blue;
}
.b {
    color: green;
}"
  ∧ merge_lines (load_sheet [rule_b_red; rule_a_red]).2
                (load_sheet [rule_a_blue]).2
    = [".b {
    color: red;
}"; ".a {
    color: blue;
}"].
Proof.
  split; [reflexivity|]. split; [reflexivity|].
  split; [|repeat split; vm_compute; reflexivity].
  intros entry ext_list inline_list.
  split; [apply merge_lines_emitted|]. split; [apply emitted_NoDup|].
  intros k rule. apply emitted_inline_rule.
Qed.

(** C9. The key is not injective on keyframes rules: two rules of one name
    whose frames differ, and are no reordering of one another, have one
    key, because a colon inside a value reads like the colon that joins
    the parts of the key. *)
Theorem keyframes_key_not_injective :
  ∃ name fs gs,
    ¬ frames_reordered fs gs
    ∧ get_rule_key (CSSKeyframesRule name fs)
      = get_rule_key (CSSKeyframesRule name gs).
Proof.
  exists "spin",
    [Keyframe.mk "0%" [Property.mk "top" "0"]; Keyframe.mk "100%" []],
    [Keyframe.mk "0%" [Property.mk "top" "0:100%:"]].
  split; [|vm_compute; reflexivity].
  intros (fs' & Hperm & Hall).
  apply Permutation_length in Hperm. apply Forall2_length in Hall.
  simpl in *. congruence.
Qed.

(** ** The formatter *)

(** The rendering of a style rule: the trimmed selector, then one line
    per declaration behind the indent, then the brace at the first
    column. *)
Lemma format_css_rule_shape sel (st : list Property.t) indent :
  format_css_rule sel st indent
  = match st with
    | [] => Py.strip sel +:+ " {}"
    | _ :: _ =>
        Py.strip sel +:+ " {" +:+ LF
          +:+ Py.join LF
                (map (λ p, indent +:+ Property.name p +:+ ": "
                             +:+ Property.value p +:+ ";") st)
          +:+ LF +:+ "}"
    end.
Proof. destruct st; reflexivity. Qed.

(** C7. A style rule renders as its trimmed selector and an opening brace,
    one line per declaration behind four spaces, and a closing brace, or
    as the selector and an empty pair of braces. In a media rule the
    selector of a nested rule stands behind one indent and its
    declarations behind two, but the brace that closes the nested rule
    stands at the first column, not behind one indent; the frames of a
    keyframes rule do close behind one indent. *)
Theorem media_inner_brace_not_indented :
  (∀ sel st,
      format_css_rule sel st "    "
      = match st with
        | [] => Py.strip sel +:+ " {}"
        | _ :: _ =>
            Py.strip sel +:+ " {" +:+ LF
              +:+ Py.join LF
                    (map (λ p, "    " +:+ Property.name p +:+ ": "
                                 +:+ Property.value p +:+ ";") st)
              +:+ LF +:+ "}"
        end)
  ∧ (∀ indent sel p st rest,
      media_inner indent (WithSelector sel (p :: st) :: rest)
      = (indent +:+ Py.strip sel +:+ " {" +:+ LF
           +:+ Py.join LF (map (format_property (indent +:+ indent)) (p :: st))
           +:+ LF +:+ "}")
          :: media_inner indent rest)
  ∧ format_at_rule
      (CSSMediaRule "screen" [WithSelector ".a" [color "red"]]) "    "
    = "@media screen {
    .a {
        color: red;
}
}"
  ∧ format_at_rule
      (CSSKeyframesRule "fade" [Keyframe.mk "from" [color "red"]]) "    "
    = "@keyframes fade {
    from {
        color: red;
    }
}".
Proof.
  split; [intros sel st; apply format_css_rule_shape|].
  repeat split; vm_compute; reflexivity.
Qed.

(** ** The merge on the examples *)

(** C1. The loops emit the first external rule, then the inline rules, then
    the other external rules, each key at its first occurrence: an inline
    rule is emitted in place of an external rule of the same key that is
    not the first of its list, and an inline-only rule is emitted before
    the external rules that follow the first. *)
Theorem inline_emitted_before_later_external :
  (∀ entry ext_list inline_list,
      merge_lines (entry :: ext_list) inline_list
      = map render_entry (fresh ∅ (entry :: inline_list ++ ext_list)))
  ∧ merge_lines (load_sheet [rule_a_red; rule_b_red]).2
                (load_sheet [rule_b_blue]).2
    = [".a {
    color: red;
}"; ".b {
    color: blue;
}"]
  ∧ merge_lines (load_sheet [rule_a_red; rule_c_red]).2
                (load_sheet [rule_b_green]).2
    = [".a {
    color: red;
}"; ".b {
    color: green;
}"; ".c {
    color: red;
}"].
Proof.
  split; [|split; vm_compute; reflexivity].
  intros entry ext_list inline_list.
  rewrite merge_lines_emitted, emitted_fresh. reflexivity.
Qed.

(** ** Strings *)

Section Strings.

Implicit Types (a b m s t w needle : string) (c : ascii) (ls : list string).

Lemma string_app_nil_l s : "" +:+ s = s.
Proof. reflexivity. Qed.

Lemma string_app_cons c a b : String c a +:+ b = String c (a +:+ b).
Proof. reflexivity. Qed.

Lemma string_app_nil_r s : s +:+ "" = s.
Proof.
  induction s as [|c s IH]; [reflexivity|].
  rewrite string_app_cons, IH. reflexivity.
Qed.

Lemma string_app_assoc a b s : (a +:+ b) +:+ s = a +:+ (b +:+ s).
Proof.
  induction a as [|c a IH]; [reflexivity|].
  rewrite !string_app_cons, IH. reflexivity.
Qed.

Lemma string_app_eq_nil a b : a +:+ b = "" → a = "" ∧ b = "".
Proof. destruct a; [auto|discriminate]. Qed.

(** *** [join] *)

Lemma join_cons sep s t ls :
  Py.join sep (s :: t :: ls) = s +:+ sep +:+ Py.join sep (t :: ls).
Proof. reflexivity. Qed.

Lemma join_app sep ls1 ls2 :
  ls1 ≠ [] → ls2 ≠ [] →
  Py.join sep (ls1 ++ ls2) = Py.join sep ls1 +:+ sep +:+ Py.join sep ls2.
Proof.
  intros Hne1 Hne2. induction ls1 as [|s [|t ls1] IH]; [done| |].
  - destruct ls2 as [|t ls2]; [done|]. reflexivity.
  - change ((s :: t :: ls1) ++ ls2) with (s :: t :: (ls1 ++ ls2)).
    rewrite !join_cons. change (t :: ls1 ++ ls2) with ((t :: ls1) ++ ls2).
    rewrite IH by done. rewrite !string_app_assoc. reflexivity.
Qed.

(** *** [strip] *)

Lemma all_space_app a b : all_space (a +:+ b) = all_space a && all_space b.
Proof.
  induction a as [|c a IH]; [reflexivity|].
  rewrite string_app_cons. simpl. rewrite IH, andb_assoc. reflexivity.
Qed.

Lemma lstrip_nil_iff s : Py.lstrip s = "" ↔ all_space s = true.
Proof.
  induction s as [|c s IH]; simpl; [done|].
  destruct (Py.isspace c); simpl; [exact IH|]. split; discriminate.
Qed.

Lemma rstrip_nil_iff s : Py.rstrip s = "" ↔ all_space s = true.
Proof.
  induction s as [|c s IH]; simpl; [done|].
  destruct (Py.rstrip s) eqn:Hr.
  - destruct (Py.isspace c); simpl.
    + split; [intros _; apply IH; reflexivity | reflexivity].
    + split; discriminate.
  - split; [discriminate|]. intros [_ Hs]%andb_true_iff.
    apply IH in Hs. discriminate Hs.
Qed.

Lemma all_space_lstrip s : all_space (Py.lstrip s) = all_space s.
Proof.
  induction s as [|c s IH]; simpl; [reflexivity|].
  destruct (Py.isspace c) eqn:Hc; simpl; [exact IH|].
  rewrite Hc. reflexivity.
Qed.

Lemma strip_nil_iff s : Py.strip s = "" ↔ all_space s = true.
Proof.
  unfold Py.strip. rewrite rstrip_nil_iff, all_space_lstrip. reflexivity.
Qed.

Lemma lstrip_app a b :
  all_space a = false → Py.lstrip (a +:+ b) = Py.lstrip a +:+ b.
Proof.
  induction a as [|c a IH]; simpl; [discriminate|].
  destruct (Py.isspace c); simpl; [exact IH|]. reflexivity.
Qed.

Lemma rstrip_app a b :
  all_space b = false → Py.rstrip (a +:+ b) = a +:+ Py.rstrip b.
Proof.
  intros Hb. induction a as [|c a IH]; [reflexivity|].
  rewrite !string_app_cons. simpl. rewrite IH.
  destruct (a +:+ Py.rstrip b) eqn:Hab; [|reflexivity].
  apply string_app_eq_nil in Hab as [_ Hr].
  apply rstrip_nil_iff in Hr. congruence.
Qed.

(** Only the white space at the two ends of a text is stripped. *)
Lemma strip_middle a m b :
  all_space a = false → all_space b = false →
  Py.strip (a +:+ m +:+ b) = Py.lstrip a +:+ m +:+ Py.rstrip b.
Proof.
  intros Ha Hb. unfold Py.strip.
  rewrite lstrip_app by exact Ha.
  rewrite <- string_app_assoc.
  rewrite rstrip_app by exact Hb.
  rewrite !string_app_assoc. reflexivity.
Qed.

Lemma all_space_join_cons sep s ls :
  all_space s = false → all_space (Py.join sep (s :: ls)) = false.
Proof.
  intros Hs. destruct ls as [|t ls]; [exact Hs|].
  rewrite join_cons, all_space_app, Hs. reflexivity.
Qed.

End Strings.

(** ** The line of a rule that renders to nothing *)

Lemma elem_of_keys_keyed (k : string) (sheet : list CSSRule) :
  k ∈ keys (keyed sheet) ↔ k ∈ map get_rule_key sheet.
Proof.
  unfold keys, keyed. rewrite elem_of_list_to_set.
  change (k ∈ fst <$> ((λ rule, (get_rule_key rule, rule)) <$> sheet)
          ↔ k ∈ get_rule_key <$> sheet).
  rewrite <- list_fmap_compose. reflexivity.
Qed.

Lemma render_charset kind text indent :
  Py.contains "@charset" text = true →
  format_at_rule (CSSOtherRule kind text) indent = "".
Proof. intros Hin. simpl. rewrite Hin. reflexivity. Qed.

(** C10. A rule of the last branch whose text contains "@charset", emitted
    from the external list, renders to the empty string and that string is
    one entry of [lines]; when lines with more than white space are
    emitted before it and after it, the final text has an empty line at
    its place, since stripping only touches the two ends of the joined
    text. *)
Theorem charset_leaves_empty_line
    (pre : list CSSRule) (kind : OtherKind) (text : string)
    (post inline : list CSSRule) :
  Py.contains "@charset" text = true →
  get_rule_key (CSSOtherRule kind text) ∉ map get_rule_key (pre ++ inline) →
  ∃ after,
    render (CSSOtherRule kind text) = ""
    ∧ merge_lines (load_sheet (pre ++ At (CSSOtherRule kind text) :: post)).2
                  (load_sheet inline).2
      = merge_lines (load_sheet pre).2 (load_sheet inline).2 ++ "" :: after
    ∧ (Py.strip (Py.join LF (merge_lines (load_sheet pre).2 (load_sheet inline).2))
         ≠ "" →
       Py.strip (Py.join LF after) ≠ "" →
       merge_sheets (pre ++ At (CSSOtherRule kind text) :: post) inline
       = Py.lstrip
           (Py.join LF (merge_lines (load_sheet pre).2 (load_sheet inline).2))
           +:+ (LF +:+ LF) +:+ Py.rstrip (Py.join LF after)).
Proof.
  intros Hin Hc.
  set (c := At (CSSOtherRule kind text)) in *.
  assert (render c = "") as Hrender by (apply render_charset, Hin).
  assert (∃ after,
            merge_lines (load_sheet (pre ++ c :: post)).2 (load_sheet inline).2
            = merge_lines (load_sheet pre).2 (load_sheet inline).2
                ++ "" :: after) as [after Hlines].
  { rewrite !merge_lines_emitted, !load_sheet_list.
    fold (keyed (pre ++ c :: post)) (keyed pre) (keyed inline).
    destruct pre as [|p pre].
    - eexists. simpl. unfold render_entry at 1. cbn [snd].
      rewrite Hrender. reflexivity.
    - set (seen := keys (keyed pre)
                   ∪ ({[get_rule_key p]} ∪ keys (keyed inline))).
      assert (get_rule_key c ∉ seen) as Hc'.
      { intros Hk. apply Hc. rewrite map_app, map_cons.
        unfold seen in Hk. rewrite !elem_of_union, !elem_of_keys_keyed in Hk.
        rewrite elem_of_app, elem_of_cons. set_solver. }
      exists (map render_entry (fresh ({[get_rule_key c]} ∪ seen) (keyed post))).
      change (keyed ((p :: pre) ++ c :: post))
        with ((get_rule_key p, p) :: keyed (pre ++ c :: post)).
      change (keyed (p :: pre)) with ((get_rule_key p, p) :: keyed pre).
      unfold emitted. rewrite keyed_app, fresh_app. fold seen.
      change (keyed (c :: post)) with ((get_rule_key c, c) :: keyed post).
      cbn [fresh]. rewrite (decide_False _ _ Hc').
      rewrite !app_comm_cons, app_assoc, map_app. f_equal.
      cbn [map]. unfold render_entry at 1. cbn [snd]. rewrite Hrender.
      reflexivity. }
  exists after. split; [exact Hrender|]. split; [exact Hlines|].
  intros Hbefore Hafter. unfold merge_sheets, final_css. rewrite Hlines.
  rewrite join_app; [|intros Hnil; rewrite Hnil in Hbefore; done|done].
  destruct after as [|line after]; [done|].
  rewrite join_cons.
  change (LF +:+ "" +:+ LF +:+ ?b) with ((LF +:+ LF) +:+ b).
  apply strip_middle.
  - destruct (all_space (Py.join LF (merge_lines (load_sheet pre).2
                                                 (load_sheet inline).2)))
      eqn:Hs; [|done].
    apply strip_nil_iff in Hs. done.
  - destruct (all_space (Py.join LF (line :: after))) eqn:Hs; [|done].
    apply strip_nil_iff in Hs. done.
Qed.

(** A concrete run: the charset rule between two style rules, after the
    inline rule that the first turn of the external loop lets in. *)
Lemma charset_leaves_empty_line_witness :
  (∃ after,
      render charset_utf8 = ""
      ∧ merge_lines (load_sheet ([rule_a_red] ++ charset_utf8 :: [rule_b_green])).2
                    (load_sheet [rule_c_red]).2
        = merge_lines (load_sheet [rule_a_red]).2 (load_sheet [rule_c_red]).2
            ++ "" :: after
      ∧ (Py.strip
           (Py.join LF
              (merge_lines (load_sheet [rule_a_red]).2 (load_sheet [rule_c_red]).2))
           ≠ "" →
         Py.strip (Py.join LF after) ≠ "" →
         merge_sheets ([rule_a_red] ++ charset_utf8 :: [rule_b_green]) [rule_c_red]
         = Py.lstrip
             (Py.join LF
                (merge_lines (load_sheet [rule_a_red]).2
                             (load_sheet [rule_c_red]).2))
             +:+ (LF +:+ LF) +:+ Py.rstrip (Py.join LF after)))
  ∧ merge_sheets [rule_a_red; charset_utf8; rule_b_green] [rule_c_red]
    = ".a {
    color: red;
}
.c {
    color: red;
}

.b {
    color: green;
}".
Proof.
  split; [|vm_compute; reflexivity].
  refine (charset_leaves_empty_line [rule_a_red] CHARSET_RULE _ [rule_b_green]
            [rule_c_red] _ _).
  - vm_compute. reflexivity.
  - apply (bool_decide_unpack _). vm_compute. exact I.
Defined.

(** ** Texts that contain a needle *)

Section Contains.

Implicit Types (needle s t w : string) (c : ascii) (ls : list string).

Lemma prefix_app needle s w :
  String.prefix needle s = true → String.prefix needle (s +:+ w) = true.
Proof.
  revert s. induction needle as [|a needle IH]; intros s.
  - intros _. destruct (s +:+ w); reflexivity.
  - destruct s as [|b s]; simpl; [done|].
    destruct (ascii_dec a b); [apply IH|done].
Qed.

Lemma contains_cons needle c s :
  Py.contains needle (String c s)
  = String.prefix needle (String c s) || Py.contains needle s.
Proof. reflexivity. Qed.

Lemma contains_app_l needle s w :
  Py.contains needle s = true → Py.contains needle (s +:+ w) = true.
Proof.
  induction s as [|c s IH].
  - destruct needle as [|a needle]; [|discriminate].
    intros _. rewrite string_app_nil_l. destruct w; reflexivity.
  - rewrite string_app_cons, !contains_cons.
    intros [Hp|Hc]%orb_true_iff; apply orb_true_iff.
    + left. apply (prefix_app _ _ w) in Hp. exact Hp.
    + right. apply IH, Hc.
Qed.

Lemma contains_app_r needle w s :
  Py.contains needle s = true → Py.contains needle (w +:+ s) = true.
Proof.
  intros Hs. induction w as [|c w IH]; [exact Hs|].
  rewrite string_app_cons, contains_cons, IH. apply orb_true_r.
Qed.

Lemma lstrip_suffix s : ∃ w, s = w +:+ Py.lstrip s.
Proof.
  induction s as [|c s [w IH]]; [by exists ""|]. simpl.
  destruct (Py.isspace c); [|by exists ""].
  exists (String c w). rewrite string_app_cons, <- IH. reflexivity.
Qed.

Lemma rstrip_prefix s : ∃ w, s = Py.rstrip s +:+ w.
Proof.
  induction s as [|c s [w IH]]; [by exists ""|]. simpl.
  destruct (Py.rstrip s) eqn:Hr.
  - rewrite string_app_nil_l in IH. subst w.
    destruct (Py.isspace c); [by exists (String c s)|by exists s].
  - exists w. rewrite string_app_cons, <- IH. reflexivity.
Qed.

(** Stripping a text brings no needle into it. *)
Lemma contains_strip needle s :
  Py.contains needle (Py.strip s) = true → Py.contains needle s = true.
Proof.
  intros Hin. unfold Py.strip in Hin.
  destruct (lstrip_suffix s) as [w1 Hs].
  destruct (rstrip_prefix (Py.lstrip s)) as [w2 Hl].
  rewrite Hs. apply contains_app_r. rewrite Hl. apply contains_app_l, Hin.
Qed.

Lemma prefix_sep needle c s t :
  Forall (λ a, a ≠ c) (list_ascii_of_string needle) →
  String.prefix needle (s +:+ String c t) = true →
  String.prefix needle s = true.
Proof.
  revert s. induction needle as [|a needle IH]; intros s Hne.
  { intros _. destruct s; reflexivity. }
  apply Forall_cons in Hne as [Ha Hne].
  destruct s as [|b s]; simpl.
  - destruct (ascii_dec a c); done.
  - destruct (ascii_dec a b); [apply IH, Hne|done].
Qed.

(** A needle without the separator lies on one side of it. *)
Lemma contains_sep needle c s t :
  needle ≠ "" →
  Forall (λ a, a ≠ c) (list_ascii_of_string needle) →
  Py.contains needle (s +:+ String c t) = true →
  Py.contains needle s = true ∨ Py.contains needle t = true.
Proof.
  intros Hnil Hne. induction s as [|b s IH].
  - rewrite string_app_nil_l, contains_cons.
    intros [Hp|Hc]%orb_true_iff; [|by right].
    apply (prefix_sep _ _ "") in Hp; [|exact Hne].
    destruct needle; done.
  - rewrite string_app_cons, !contains_cons.
    intros [Hp|Hc]%orb_true_iff.
    + left. apply orb_true_iff. left.
      apply (prefix_sep needle c (String b s) t Hne Hp).
    + destruct (IH Hc) as [Hs|Ht]; [left|by right].
      apply orb_true_iff. by right.
Qed.

Lemma contains_join needle c ls :
  needle ≠ "" →
  Forall (λ a, a ≠ c) (list_ascii_of_string needle) →
  Forall (λ line, Py.contains needle line = false) ls →
  Py.contains needle (Py.join (String c "") ls) = false.
Proof.
  intros Hnil Hne Hall. induction Hall as [|s ls Hs Hall IH].
  - destruct needle; done.
  - destruct ls as [|t ls]; [exact Hs|]. rewrite join_cons.
    destruct (Py.contains needle (s +:+ String c "" +:+ Py.join (String c "") (t :: ls)))
      eqn:Hin; [|reflexivity].
    apply contains_sep in Hin as [Hin|Hin]; congruence.
Qed.

(** No line with "@charset", no "@charset" in the final text. *)
Lemma final_css_no_charset ls :
  Forall (λ line, Py.contains "@charset" line = false) ls →
  Py.contains "@charset" (final_css ls) = false.
Proof.
  intros Hall. unfold final_css.
  destruct (Py.contains "@charset" (Py.strip (Py.join LF ls))) eqn:Hin;
    [|reflexivity].
  apply contains_strip in Hin. unfold LF in Hin.
  rewrite (contains_join "@charset" "010" ls) in Hin; [done|done| |exact Hall].
  repeat constructor; discriminate.
Qed.

End Contains.

(** ** From the texts to the final text *)

Lemma keyed_rules (sheet : list CSSRule) : (keyed sheet).*2 = sheet.
Proof.
  induction sheet as [|rule sheet IH]; [reflexivity|].
  cbn. f_equal. exact IH.
Qed.

Lemma render_entries (l : list (string * CSSRule)) :
  map render_entry l = map render l.*2.
Proof. induction l as [|[k r] l IH]; [reflexivity|]. simpl. by rewrite IH. Qed.

Lemma emitted_subseteq ext inline : emitted ext inline ⊆ ext ++ inline.
Proof.
  destruct ext as [|entry ext]; [apply list_subseteq_nil|].
  rewrite emitted_fresh. intros x Hx.
  apply (sublist_subseteq _ _ (fresh_sublist _ _)) in Hx.
  set_solver.
Qed.

Lemma emitted_nil_inline ext : emitted ext [] = fresh ∅ ext.
Proof.
  destruct ext as [|[k r] ext]; [reflexivity|]. simpl.
  rewrite decide_False by set_solver. reflexivity.
Qed.

Lemma render_last_branch kind text :
  Py.contains "@charset" (render (CSSOtherRule kind text)) = false.
Proof.
  simpl. destruct (Py.contains "@charset" text) eqn:Hin; [reflexivity|exact Hin].
Qed.

Lemma merge_inline_with_external_sheets
    (parseString_utf8 parseString : string → result (list CSSRule))
    (css_content inline_css : string) (ext_sheet inline_sheet : list CSSRule) :
  parse_or_empty parseString_utf8 parseString css_content = Ok ext_sheet →
  parse_or_empty parseString_utf8 parseString inline_css = Ok inline_sheet →
  merge_inline_with_external parseString_utf8 parseString css_content inline_css
  = Ok (merge_sheets ext_sheet inline_sheet).
Proof.
  intros Hext Hinl. unfold merge_inline_with_external, load_css_rules.
  rewrite Hext, Hinl.
  destruct (load_sheet ext_sheet) as [ext_rules ext_list] eqn:He.
  destruct (load_sheet inline_sheet) as [inline_rules inline_list] eqn:Hi.
  unfold merge_sheets. rewrite He, Hi. reflexivity.
Qed.

(** C5. No text of a charset rule reaches the final text: the final text is
    the stripped join of the renderings of rules of the two parsed sheets,
    a rule of the last branch renders to a text without "@charset", to the
    empty string when its own text contains "@charset", and unless the
    rendering of a style, import, keyframes or media rule contains
    "@charset", the final text does not contain it. *)
Theorem charset_rule_never_rendered
    (parseString_utf8 parseString : string → result (list CSSRule))
    (css_content inline_css : string) (ext_sheet inline_sheet : list CSSRule) :
  parse_or_empty parseString_utf8 parseString css_content = Ok ext_sheet →
  parse_or_empty parseString_utf8 parseString inline_css = Ok inline_sheet →
  ∃ rules,
    merge_inline_with_external parseString_utf8 parseString
      css_content inline_css
    = Ok (final_css (map render rules))
    ∧ rules ⊆ ext_sheet ++ inline_sheet
    ∧ Forall (λ rule, ∀ kind text,
                rule = At (CSSOtherRule kind text) →
                Py.contains "@charset" (render rule) = false
                ∧ (Py.contains "@charset" text = true → render rule = ""))
             rules
    ∧ (Forall (λ rule, in_last_branch rule = false →
                       Py.contains "@charset" (render rule) = false) rules →
       Py.contains "@charset" (final_css (map render rules)) = false).
Proof.
  intros Hext Hinl.
  exists (emitted (keyed ext_sheet) (keyed inline_sheet)).*2.
  split; [|split; [|split]].
  - rewrite (merge_inline_with_external_sheets _ _ _ _ _ _ Hext Hinl).
    unfold merge_sheets.
    rewrite merge_lines_emitted, !load_sheet_list, render_entries.
    reflexivity.
  - intros rule [[k r] [-> Hin]]%list_elem_of_fmap.
    apply emitted_subseteq in Hin. rewrite <- keyed_app in Hin.
    apply (list_elem_of_fmap_2 snd) in Hin. rewrite keyed_rules in Hin.
    exact Hin.
  - apply Forall_forall. intros rule _ kind text ->.
    split; [apply render_last_branch|]. intros Hin. apply render_charset, Hin.
  - intros Hall. apply final_css_no_charset.
    apply Forall_map. eapply Forall_impl; [exact Hall|].
    intros [sel st|[href|name fs|query rs|kind text]] Hrule;
      try (apply Hrule; reflexivity).
    apply render_last_branch.
Qed.

(** Example 3: the external text holds a charset rule and a style rule,
    the inline text is empty. *)
Lemma charset_rule_never_rendered_witness :
  (∃ rules,
      merge_inline_with_external sample_parse_utf8 sample_parse
        sample_external_text ""
      = Ok (final_css (map render rules))
      ∧ rules ⊆ [charset_utf8; rule_a_red] ++ [charset_head]
      ∧ Forall (λ rule, ∀ kind text,
                  rule = At (CSSOtherRule kind text) →
                  Py.contains "@charset" (render rule) = false
                  ∧ (Py.contains "@charset" text = true → render rule = ""))
               rules
      ∧ (Forall (λ rule, in_last_branch rule = false →
                         Py.contains "@charset" (render rule) = false) rules →
         Py.contains "@charset" (final_css (map render rules)) = false))
  ∧ merge_inline_with_external sample_parse_utf8 sample_parse
      sample_external_text ""
    = Ok ".a {
    color: red;
}".
Proof.
  split; [|vm_compute; reflexivity].
  apply (charset_rule_never_rendered sample_parse_utf8 sample_parse
           sample_external_text "" [charset_utf8; rule_a_red] [charset_head]).
  - vm_compute. reflexivity.
  - vm_compute. reflexivity.
Defined.

(** ** Texts that do not parse *)

Section Recovery.

Variable parseString_utf8 parseString : string → result (list CSSRule).

(** Without an encoding the empty text parses to the empty sheet. *)
Hypothesis parse_empty : parseString "" = Ok [].

Lemma parse_or_empty_total (css_text : string) :
  ∃ sheet, parse_or_empty parseString_utf8 parseString css_text = Ok sheet.
Proof.
  unfold parse_or_empty.
  destruct (parseString_utf8 css_text) as [sheet|e]; eauto.
Qed.

Lemma parse_or_empty_raise (css_text e : string) :
  parseString_utf8 css_text = Raise e →
  parse_or_empty parseString_utf8 parseString css_text = Ok [].
Proof. intros Hraise. unfold parse_or_empty. rewrite Hraise. exact parse_empty. Qed.

Lemma parse_or_empty_ok (css_text : string) (sheet : list CSSRule) :
  parseString_utf8 css_text = Ok sheet →
  parse_or_empty parseString_utf8 parseString css_text = Ok sheet.
Proof. intros Hok. unfold parse_or_empty. rewrite Hok. reflexivity. Qed.

(** The run returns a final text on every pair of texts. *)
Lemma merge_inline_with_external_total (css_content inline_css : string) :
  ∃ out,
    merge_inline_with_external parseString_utf8 parseString
      css_content inline_css = Ok out.
Proof.
  destruct (parse_or_empty_total css_content) as [ext_sheet Hext].
  destruct (parse_or_empty_total inline_css) as [inline_sheet Hinl].
  rewrite (merge_inline_with_external_sheets _ _ _ _ _ _ Hext Hinl). eauto.
Qed.

(** With the sheet of the handler in the place of the external sheet the
    run returns the empty text. *)
Lemma merge_inline_with_external_raise (css_content e inline_css : string) :
  parseString_utf8 css_content = Raise e →
  merge_inline_with_external parseString_utf8 parseString
    css_content inline_css = Ok "".
Proof.
  intros Hraise.
  destruct (parse_or_empty_total inline_css) as [inline_sheet Hinl].
  rewrite (merge_inline_with_external_sheets _ _ _ _ _ _
             (parse_or_empty_raise _ _ Hraise) Hinl).
  reflexivity.
Qed.

End Recovery.

Lemma keys_nonempty (entry : string * CSSRule) (l : list (string * CSSRule)) :
  (0 < size (keys (entry :: l)))%nat.
Proof.
  destruct entry as [k r]. rewrite keys_cons.
  destruct (size ({[k]} ∪ keys l)) eqn:Hsize; [|lia].
  apply size_empty_inv in Hsize. set_solver.
Qed.

(** C2. No two emitted rules share a key, and with an external list that
    is not empty the number of lines is the number of distinct keys of the
    two lists. With the empty external list nothing is emitted, whatever
    the inline list holds. The loader returns the empty list for an
    external text on which the parser raises: the run then returns the
    empty text, while [final_rules] holds every key of the inline sheet,
    which has at least one. *)
Theorem empty_external_emits_nothing
    (parseString_utf8 parseString : string → result (list CSSRule))
    (css_content e inline_css : string)
    (rule : CSSRule) (inline_sheet : list CSSRule) :
  parseString_utf8 css_content = Raise e →
  parseString "" = Ok [] →
  parseString_utf8 inline_css = Ok (rule :: inline_sheet) →
  load_css_rules parseString_utf8 parseString css_content = Ok (∅, [])
  ∧ load_css_rules parseString_utf8 parseString inline_css
    = Ok (load_sheet (rule :: inline_sheet))
  ∧ merge_lines [] (load_sheet (rule :: inline_sheet)).2 = []
  ∧ merge_inline_with_external parseString_utf8 parseString
      css_content inline_css = Ok ""
  ∧ size (final_rules ∅ (load_sheet (rule :: inline_sheet)).1)
    = size (keys [] ∪ keys (load_sheet (rule :: inline_sheet)).2)
  ∧ (length (merge_lines [] (load_sheet (rule :: inline_sheet)).2)
     < size (keys [] ∪ keys (load_sheet (rule :: inline_sheet)).2))%nat
  ∧ (∀ ext_list inline_list,
      merge_lines ext_list inline_list
      = map render_entry (emitted ext_list inline_list)
      ∧ NoDup (emitted ext_list inline_list).*1)
  ∧ (∀ ext_list inline_list,
      ext_list ≠ [] →
      length (merge_lines ext_list inline_list)
      = size (keys ext_list ∪ keys inline_list)).
Proof.
  intros Hraise Hempty Hinline.
  assert (keys [] ∪ keys (load_sheet (rule :: inline_sheet)).2
          = keys (load_sheet (rule :: inline_sheet)).2) as Hkeys
    by (unfold keys at 1; simpl; apply (left_id_L ∅ (∪))).
  rewrite Hkeys.
  split; [|split; [|split; [|split; [|split; [|split; [|split]]]]]].
  - unfold load_css_rules.
    rewrite (parse_or_empty_raise _ _ Hempty _ _ Hraise). reflexivity.
  - unfold load_css_rules.
    rewrite (parse_or_empty_ok _ _ _ _ Hinline). reflexivity.
  - apply merge_lines_nil.
  - apply (merge_inline_with_external_raise _ _ Hempty _ _ _ Hraise).
  - unfold final_rules. rewrite (left_id_L ∅ (∪)), <- load_sheet_dom.
    symmetry. apply size_dom.
  - rewrite merge_lines_nil, load_sheet_list. apply keys_nonempty.
  - intros ext_list inline_list.
    split; [apply merge_lines_emitted | apply emitted_NoDup].
  - apply merge_lines_length.
Qed.

(** Example 2. On the empty external text the parser returns a sheet that
    holds its charset rule, and the run prints the import rule; on an
    external text that raises the list is empty and so is the final
    text, with two keys in [final_rules]. *)
Lemma empty_external_emits_nothing_witness :
  (load_css_rules sample_parse_utf8 sample_parse "}" = Ok (∅, [])
   ∧ load_css_rules sample_parse_utf8 sample_parse "@import url('x.css');"
     = Ok (load_sheet (charset_head :: [import_x]))
   ∧ merge_lines [] (load_sheet (charset_head :: [import_x])).2 = []
   ∧ merge_inline_with_external sample_parse_utf8 sample_parse
       "}" "@import url('x.css');" = Ok ""
   ∧ size (final_rules ∅ (load_sheet (charset_head :: [import_x])).1)
     = size (keys [] ∪ keys (load_sheet (charset_head :: [import_x])).2)
   ∧ (length (merge_lines [] (load_sheet (charset_head :: [import_x])).2)
      < size (keys [] ∪ keys (load_sheet (charset_head :: [import_x])).2))%nat
   ∧ (∀ ext_list inline_list,
       merge_lines ext_list inline_list
       = map render_entry (emitted ext_list inline_list)
       ∧ NoDup (emitted ext_list inline_list).*1)
   ∧ (∀ ext_list inline_list,
       ext_list ≠ [] →
       length (merge_lines ext_list inline_list)
       = size (keys ext_list ∪ keys inline_list)))
  ∧ size (final_rules ∅ (load_sheet [charset_head; import_x]).1) = 2%nat
  ∧ merge_inline_with_external sample_parse_utf8 sample_parse
      "" "@import url('x.css');" = Ok "@import url('x.css');".
Proof.
  split; [|split; vm_compute; reflexivity].
  apply (empty_external_emits_nothing sample_parse_utf8 sample_parse
           "}" "parse error" "@import url('x.css');" charset_head [import_x]).
  - vm_compute. reflexivity.
  - vm_compute. reflexivity.
  - vm_compute. reflexivity.
Defined.

(** C6. A text on which the parser raises is loaded as the empty rule
    list, and no exception leaves [load_css_rules]. When the inline text
    is the one that fails, the final text holds the external rules, each
    key once. When the external text is the one that fails, the run
    returns the empty text whatever the inline text holds: the rules of
    the inline sheet are neither merged nor rendered. *)
Theorem failed_external_parse_drops_inline
    (parseString_utf8 parseString : string → result (list CSSRule))
    (css_text e : string) :
  parseString "" = Ok [] →
  parseString_utf8 css_text = Raise e →
  load_css_rules parseString_utf8 parseString css_text = Ok (∅, [])
  ∧ (∀ other sheet,
      parseString_utf8 other = Ok sheet →
      merge_inline_with_external parseString_utf8 parseString other css_text
      = Ok (final_css (map render_entry (fresh ∅ (keyed sheet)))))
  ∧ (∀ other,
      merge_inline_with_external parseString_utf8 parseString css_text other
      = Ok "").
Proof.
  intros Hempty Hraise.
  pose proof (parse_or_empty_raise _ _ Hempty _ _ Hraise) as Hfail.
  split; [|split].
  - unfold load_css_rules. rewrite Hfail. reflexivity.
  - intros other sheet Hother.
    rewrite (merge_inline_with_external_sheets _ _ _ _ _ _
               (parse_or_empty_ok _ _ _ _ Hother) Hfail).
    unfold merge_sheets.
    rewrite merge_lines_emitted, !load_sheet_list. fold (keyed sheet).
    change (map _ []) with (keyed []). unfold keyed at 2. simpl map.
    rewrite emitted_nil_inline. reflexivity.
  - intros other.
    apply (merge_inline_with_external_raise _ _ Hempty _ _ _ Hraise).
Qed.

(** The stand-in parser raises on the text of a lone brace: as the inline
    text it leaves the external rule alone in the final text, as the
    external text it leaves the final text empty. *)
Lemma failed_external_parse_drops_inline_witness :
  (load_css_rules sample_parse_utf8 sample_parse "}" = Ok (∅, [])
   ∧ (∀ other sheet,
       sample_parse_utf8 other = Ok sheet →
       merge_inline_with_external sample_parse_utf8 sample_parse other "}"
       = Ok (final_css (map render_entry (fresh ∅ (keyed sheet)))))
   ∧ (∀ other,
       merge_inline_with_external sample_parse_utf8 sample_parse "}" other
       = Ok ""))
  ∧ merge_inline_with_external sample_parse_utf8 sample_parse
      ".b{color:green}" "}"
    = Ok ".b {
    color: green;
}"
  ∧ merge_inline_with_external sample_parse_utf8 sample_parse
      "}" ".b{color:green}" = Ok "".
Proof.
  split; [|split; vm_compute; reflexivity].
  apply (failed_external_parse_drops_inline sample_parse_utf8 sample_parse
           "}" "parse error").
  - vm_compute. reflexivity.
  - vm_compute. reflexivity.
Defined.

(** * Beyond the merge: keys, loader, counts and the <style> element *)

(** ** Which rules share a key *)

Lemma key_same_kind (r1 r2 : CSSRule) :
  get_rule_key r1 = get_rule_key r2 → same_kind r1 r2.
Proof.
  destruct r1 as [sel1 st1|[href1|name1 fs1|query1 rs1|kind1 text1]];
    destruct r2 as [sel2 st2|[href2|name2 fs2|query2 rs2|kind2 text2]];
    unfold get_rule_key, same_kind; cbv zeta;
    rewrite ?string_app_cons, ?string_app_nil_l;
    intros Hkey; try discriminate Hkey; try exact I;
    repeat (injection Hkey as Hkey); exact Hkey.
Qed.

(** A rule outside the last branch shares its key with rules outside the
    last branch only. *)
Lemma key_keeps_branch (r1 r2 : CSSRule) :
  get_rule_key r1 = get_rule_key r2 → in_last_branch r1 = in_last_branch r2.
Proof.
  intros Hkey. apply key_same_kind in Hkey.
  destruct r1 as [?|[]], r2 as [?|[]]; simpl in *; done.
Qed.

(** X1. Two rules share a key only when they are of the same kind: two
    style rules with the same trimmed, lower-case selector, two imports of
    the same address, two rules of the last branch with the same text, two
    keyframes rules or two media rules. A style rule and an at-rule, or
    at-rules of two kinds, are never duplicates of one another. *)
Theorem key_tells_kind (r1 r2 : CSSRule) :
  get_rule_key r1 = get_rule_key r2 →
  match r1, r2 with
  | CSSStyleRule sel1 _, CSSStyleRule sel2 _ =>
      Py.lower (Py.strip sel1) = Py.lower (Py.strip sel2)
  | At (CSSImportRule href1), At (CSSImportRule href2) => href1 = href2
  | At (CSSKeyframesRule _ _), At (CSSKeyframesRule _ _) => True
  | At (CSSMediaRule _ _), At (CSSMediaRule _ _) => True
  | At (CSSOtherRule _ text1), At (CSSOtherRule _ text2) => text1 = text2
  | _, _ => False
  end.
Proof. exact (key_same_kind r1 r2). Qed.

Lemma key_tells_kind_witness :
  Py.lower (Py.strip " .Menu A") = Py.lower (Py.strip ".menu a  ").
Proof.
  apply (key_tells_kind (CSSStyleRule " .Menu A" [color "red"])
                        (CSSStyleRule ".menu a  " [])).
  vm_compute. reflexivity.
Defined.

(** ** White space around a selector *)

Lemma lstrip_padding (w s : string) :
  all_space w = true → Py.lstrip (w +:+ s) = Py.lstrip s.
Proof.
  induction w as [|c w IH]; [reflexivity|].
  simpl. intros [Hc Hw]%andb_true_iff. rewrite Hc. apply IH, Hw.
Qed.

Lemma rstrip_padding (s w : string) :
  all_space w = true → Py.rstrip (s +:+ w) = Py.rstrip s.
Proof.
  intros Hw. induction s as [|c s IH].
  - rewrite string_app_nil_l. apply rstrip_nil_iff, Hw.
  - rewrite string_app_cons. simpl. rewrite IH. reflexivity.
Qed.

Lemma strip_padding (w1 s w2 : string) :
  all_space w1 = true → all_space w2 = true →
  Py.strip (w1 +:+ s +:+ w2) = Py.strip s.
Proof.
  intros Hw1 Hw2. unfold Py.strip. rewrite lstrip_padding by exact Hw1.
  destruct (all_space s) eqn:Hs.
  - assert (all_space (s +:+ w2) = true) as Hsw
      by (rewrite all_space_app, Hs, Hw2; reflexivity).
    apply lstrip_nil_iff in Hs, Hsw. rewrite Hs, Hsw. reflexivity.
  - rewrite lstrip_app by exact Hs. apply rstrip_padding, Hw2.
Qed.

(** X2. White space around the selector of a style rule changes neither
    the key nor the rendering of the rule. *)
Theorem selector_padding_ignored
    (w1 sel w2 : string) (st st' : list Property.t) (indent : string) :
  all_space w1 = true →
  all_space w2 = true →
  get_rule_key (CSSStyleRule (w1 +:+ sel +:+ w2) st)
  = get_rule_key (CSSStyleRule sel st')
  ∧ format_css_rule (w1 +:+ sel +:+ w2) st indent = format_css_rule sel st indent.
Proof.
  intros Hw1 Hw2. unfold get_rule_key, format_css_rule.
  rewrite (strip_padding _ _ _ Hw1 Hw2). done.
Qed.

Lemma selector_padding_ignored_witness :
  get_rule_key (CSSStyleRule ("  " +:+ "Nav > A" +:+ LF) [color "red"])
  = get_rule_key (CSSStyleRule "Nav > A" [])
  ∧ format_css_rule ("  " +:+ "Nav > A" +:+ LF) [color "red"] "    "
    = format_css_rule "Nav > A" [color "red"] "    ".
Proof.
  apply (selector_padding_ignored "  " "Nav > A" LF [color "red"] [] "    ");
    vm_compute; reflexivity.
Defined.

(** ** Nested rules without a selector *)

Lemma media_inner_filter indent (rules : list InnerRule) :
  media_inner indent (List.filter has_selector rules) = media_inner indent rules.
Proof.
  induction rules as [|[sel st|] rules IH]; simpl; [reflexivity| |exact IH].
  rewrite IH. reflexivity.
Qed.

Lemma inner_content_filter (rules : list InnerRule) :
  inner_content (List.filter has_selector rules) = inner_content rules.
Proof.
  induction rules as [|[sel st|] rules IH]; simpl; [reflexivity| |exact IH].
  rewrite IH. reflexivity.
Qed.

(** X3. The rules nested in a media rule that have no selector count for
    nothing: the rendering and the key of the media rule are those of the
    media rule without them. *)
Theorem media_ignores_rules_without_selector
    (query : string) (rules : list InnerRule) (indent : string) :
  format_at_rule (CSSMediaRule query (List.filter has_selector rules)) indent
  = format_at_rule (CSSMediaRule query rules) indent
  ∧ get_rule_key (CSSMediaRule query (List.filter has_selector rules))
    = get_rule_key (CSSMediaRule query rules).
Proof.
  unfold format_at_rule, get_rule_key.
  rewrite media_inner_filter, inner_content_filter. done.
Qed.

(** ** Rules that leave a visible line *)

Lemma render_visible (rule : CSSRule) :
  in_last_branch rule = false → all_space (render rule) = false.
Proof.
  destruct rule as [sel st|[href|name fs|query rs|kind text]]; intros Hb;
    try discriminate Hb; try reflexivity.
  unfold render, format_css_rule.
  destruct (map (format_property default_indent) st).
  - rewrite all_space_app. apply andb_false_r.
  - rewrite all_space_app, !string_app_cons. apply andb_false_r.
Qed.

Lemma all_space_join (sep : string) (ls : list string) :
  Exists (λ line, all_space line = false) ls →
  all_space (Py.join sep ls) = false.
Proof.
  induction ls as [|s [|t ls] IH]; intros Hex.
  - inversion Hex.
  - inversion Hex as [? ? Hs|? ? Hnil]; [exact Hs|inversion Hnil].
  - rewrite join_cons, !all_space_app.
    inversion Hex as [? ? Hs|? ? Hrest]; subst.
    + rewrite Hs. reflexivity.
    + rewrite (IH Hrest), !andb_false_r. reflexivity.
Qed.

Lemma keyed_entry (k : string) (r : CSSRule) (sheet : list CSSRule) :
  (k, r) ∈ keyed sheet → k = get_rule_key r ∧ r ∈ sheet.
Proof.
  unfold keyed. intros (r' & Heq & Hin)%list_elem_of_fmap.
  injection Heq as -> ->. done.
Qed.

(** X4. A style, import, keyframes or media rule never renders to white
    space alone, and with an external sheet that is not empty the final
    text is not empty as soon as one of the two sheets holds such a
    rule. *)
Theorem visible_rule_reaches_output
    (ext_sheet inline_sheet : list CSSRule) (rule : CSSRule) :
  ext_sheet ≠ [] →
  rule ∈ ext_sheet ++ inline_sheet →
  in_last_branch rule = false →
  Py.strip (render rule) ≠ ""
  ∧ merge_sheets ext_sheet inline_sheet ≠ "".
Proof.
  intros Hne Hin Hb. split.
  { intros Hs%strip_nil_iff. rewrite render_visible in Hs by exact Hb. done. }
  unfold merge_sheets, final_css. intros Hs%strip_nil_iff.
  rewrite all_space_join in Hs; [done|].
  rewrite merge_lines_emitted, !load_sheet_list.
  fold (keyed ext_sheet) (keyed inline_sheet).
  assert (get_rule_key rule
            ∈ keys (emitted (keyed ext_sheet) (keyed inline_sheet))) as Hk.
  { rewrite emitted_keys by (destruct ext_sheet; done).
    rewrite <- keys_app, <- keyed_app.
    apply elem_of_keys_keyed, list_elem_of_fmap. eauto. }
  apply elem_of_keys in Hk as [r' Hr'].
  apply Exists_exists. exists (render r'). split.
  - apply (list_elem_of_fmap_2 render_entry _ (get_rule_key rule, r')), Hr'.
  - apply render_visible.
    apply emitted_subseteq in Hr'. rewrite <- keyed_app in Hr'.
    apply keyed_entry in Hr' as [Hkey _].
    rewrite <- (key_keeps_branch _ _ Hkey). exact Hb.
Qed.

Lemma visible_rule_reaches_output_witness :
  Py.strip (render rule_b_green) ≠ ""
  ∧ merge_sheets [charset_utf8] [rule_b_green] ≠ "".
Proof.
  apply (visible_rule_reaches_output [charset_utf8] [rule_b_green] rule_b_green).
  - discriminate.
  - simpl. repeat constructor.
  - reflexivity.
Defined.

(** ** The dictionary of the loader *)

Lemma load_sheet_last (s1 s2 : list CSSRule) (rule : CSSRule) :
  get_rule_key rule ∉ map get_rule_key s2 →
  (load_sheet (s1 ++ rule :: s2)).1 !! get_rule_key rule = Some rule.
Proof.
  induction s2 as [|r s2 IH] using rev_ind; intros Hnew.
  - rewrite load_sheet_dict_snoc. apply lookup_insert_eq.
  - rewrite app_comm_cons, app_assoc, load_sheet_dict_snoc.
    rewrite map_app, elem_of_app in Hnew. simpl in Hnew.
    rewrite lookup_insert_ne.
    + apply IH. tauto.
    + intros Heq. apply Hnew. right. rewrite Heq. constructor.
Qed.

Lemma load_sheet_lookup (sheet : list CSSRule) (k : string) (rule : CSSRule) :
  (load_sheet sheet).1 !! k = Some rule → k = get_rule_key rule ∧ rule ∈ sheet.
Proof.
  induction sheet as [|r sheet IH] using rev_ind; [done|].
  rewrite load_sheet_dict_snoc, lookup_insert. case_decide as Hk.
  - intros [= <-]. split; [done|]. apply elem_of_app. right. constructor.
  - intros [-> Hin]%IH. split; [done|]. apply elem_of_app. by left.
Qed.

Lemma load_sheet_size (sheet : list CSSRule) :
  (size (load_sheet sheet).1 ≤ length sheet)%nat.
Proof.
  induction sheet as [|r sheet IH] using rev_ind; [done|].
  rewrite load_sheet_dict_snoc, length_app. simpl.
  pose proof (map_size_insert (get_rule_key r) r (load_sheet sheet).1) as Hsize.
  destruct ((load_sheet sheet).1 !! get_rule_key r); simpl in Hsize; lia.
Qed.

(** X5. The loader keeps every rule of the sheet in the list, in order and
    with its key, and in the dictionary the last rule of each key: the
    keys of the dictionary are the keys of the list, a rule that no later
    rule shares its key with is the entry of its key, every entry is a
    rule of the sheet under its own key, and the dictionary is no longer
    than the list. *)
Theorem loader_dictionary_and_list (sheet : list CSSRule) :
  (load_sheet sheet).2 = map (λ rule, (get_rule_key rule, rule)) sheet
  ∧ dom (load_sheet sheet).1 = keys (load_sheet sheet).2
  ∧ (∀ s1 rule s2,
      sheet = s1 ++ rule :: s2 →
      get_rule_key rule ∉ map get_rule_key s2 →
      (load_sheet sheet).1 !! get_rule_key rule = Some rule)
  ∧ (∀ k rule,
      (load_sheet sheet).1 !! k = Some rule →
      k = get_rule_key rule ∧ rule ∈ sheet)
  ∧ (size (load_sheet sheet).1 ≤ length (load_sheet sheet).2)%nat.
Proof.
  split; [apply load_sheet_list|]. split; [apply load_sheet_dom|].
  split; [intros s1 rule s2 ->; apply load_sheet_last|].
  split; [apply load_sheet_lookup|].
  rewrite load_sheet_list, length_map. apply load_sheet_size.
Qed.

(** ** The loop that fills [final_rules] *)

Lemma final_rules_loop_snoc ext_rules items item :
  final_rules_loop ext_rules (items ++ [item])
  = final_step (final_rules_loop ext_rules items) item.
Proof. unfold final_rules_loop. rewrite foldl_app. reflexivity. Qed.

Lemma final_rules_loop_union (ext_rules : gmap string CSSRule)
    (items : list (string * CSSRule)) :
  NoDup items.*1 →
  final_rules_loop ext_rules items
  = (ext_rules ∪ list_to_map items, size (list_to_map items ∖ ext_rules)).
Proof.
  induction items as [|[k r] items IH] using rev_ind; intros Hnodup.
  - unfold final_rules_loop. simpl.
    rewrite (right_id_L ∅ (∪)), map_empty_difference, map_size_empty. done.
  - rewrite fmap_app in Hnodup. apply NoDup_app in Hnodup as (Hnd & Hk & _).
    assert (k ∉ items.*1) as Hnew.
    { intros Hin. apply (Hk k Hin). simpl. constructor. }
    pose proof (not_elem_of_list_to_map_1 (M := gmap string) items k Hnew) as Hnone.
    rewrite final_rules_loop_snoc, IH by exact Hnd.
    rewrite list_to_map_snoc by exact Hnew.
    unfold final_step. cbn [fst snd].
    rewrite lookup_union, Hnone, (right_id_L None (∪)).
    destruct (ext_rules !! k) as [v|] eqn:Hext.
    + f_equal.
      * apply map_eq. intros i. rewrite !lookup_union.
        destruct (decide (i = k)) as [->|Hne].
        -- rewrite lookup_insert_eq, Hnone, Hext. done.
        -- rewrite lookup_insert_ne by done. done.
      * f_equal. apply map_eq. intros i. rewrite !lookup_difference.
        destruct (decide (i = k)) as [->|Hne].
        -- rewrite Hext. done.
        -- rewrite lookup_insert_ne by done. done.
    + f_equal; [apply insert_union_r, Hext|].
      rewrite <- insert_difference' by exact Hext.
      rewrite map_size_insert_None; [done|].
      rewrite lookup_difference, Hext. exact Hnone.
Qed.

(** X6. Whatever the order in which the dictionary of the inline rules
    yields its items, the loop leaves in [final_rules] every entry of the
    external dictionary as it was and every inline entry whose key the
    external dictionary lacks, and [new_from_inline] counts the latter:
    the size of [final_rules] is the size of the external dictionary plus
    that count. *)
Theorem final_rules_loop_result
    (ext_rules inline_rules : gmap string CSSRule)
    (items : list (string * CSSRule)) :
  NoDup items.*1 →
  list_to_map items = inline_rules →
  final_rules_loop ext_rules items
  = (final_rules ext_rules inline_rules, new_from_inline ext_rules inline_rules)
  ∧ (∀ k rule, ext_rules !! k = Some rule →
               (final_rules_loop ext_rules items).1 !! k = Some rule)
  ∧ (∀ k, ext_rules !! k = None →
          (final_rules_loop ext_rules items).1 !! k = inline_rules !! k)
  ∧ size (final_rules_loop ext_rules items).1
    = (size ext_rules + (final_rules_loop ext_rules items).2)%nat.
Proof.
  intros Hnodup <-. rewrite (final_rules_loop_union _ _ Hnodup). cbn [fst snd].
  split; [reflexivity|]. split; [|split].
  - intros k rule Hk. apply lookup_union_Some_l, Hk.
  - intros k Hk. rewrite lookup_union, Hk, (left_id_L None (∪)). done.
  - assert (ext_rules ∪ list_to_map items
            = ext_rules ∪ list_to_map items ∖ ext_rules) as ->.
    { apply map_eq. intros i. rewrite !lookup_union, lookup_difference.
      destruct (ext_rules !! i), (list_to_map items !! i); done. }
    apply map_size_disj_union, map_disjoint_difference_r1. done.
Qed.

Lemma final_rules_loop_result_witness :
  final_rules_loop (load_sheet [rule_a_red]).1
    [(get_rule_key rule_b_green, rule_b_green); (get_rule_key rule_a_blue, rule_a_blue)]
  = (final_rules (load_sheet [rule_a_red]).1 (load_sheet [rule_a_blue; rule_b_green]).1,
     new_from_inline (load_sheet [rule_a_red]).1
       (load_sheet [rule_a_blue; rule_b_green]).1)
  ∧ (∀ k rule, (load_sheet [rule_a_red]).1 !! k = Some rule →
        (final_rules_loop (load_sheet [rule_a_red]).1
           [(get_rule_key rule_b_green, rule_b_green);
            (get_rule_key rule_a_blue, rule_a_blue)]).1 !! k = Some rule)
  ∧ (∀ k, (load_sheet [rule_a_red]).1 !! k = None →
        (final_rules_loop (load_sheet [rule_a_red]).1
           [(get_rule_key rule_b_green, rule_b_green);
            (get_rule_key rule_a_blue, rule_a_blue)]).1 !! k
        = (load_sheet [rule_a_blue; rule_b_green]).1 !! k)
  ∧ size (final_rules_loop (load_sheet [rule_a_red]).1
            [(get_rule_key rule_b_green, rule_b_green);
             (get_rule_key rule_a_blue, rule_a_blue)]).1
    = (size (load_sheet [rule_a_red]).1
       + (final_rules_loop (load_sheet [rule_a_red]).1
            [(get_rule_key rule_b_green, rule_b_green);
             (get_rule_key rule_a_blue, rule_a_blue)]).2)%nat.
Proof.
  apply final_rules_loop_result.
  - apply (bool_decide_unpack _). vm_compute. exact I.
  - vm_compute. reflexivity.
Defined.

(** ** The printed total and the emitted rules *)

(** X7. With an external sheet that is not empty, the total that the run
    prints, the size of [final_rules], is the number of rules it emits. *)
Theorem printed_total_counts_lines (ext_sheet inline_sheet : list CSSRule) :
  ext_sheet ≠ [] →
  length (merge_lines (load_sheet ext_sheet).2 (load_sheet inline_sheet).2)
  = size (final_rules (load_sheet ext_sheet).1 (load_sheet inline_sheet).1).
Proof.
  intros Hne. rewrite merge_lines_length.
  - unfold final_rules.
    rewrite <- !load_sheet_dom, <- dom_union_L. apply size_dom.
  - rewrite load_sheet_list. destruct ext_sheet; done.
Qed.

Lemma printed_total_counts_lines_witness :
  length (merge_lines (load_sheet [rule_a_red; rule_a_blue; import_x]).2
                      (load_sheet [rule_b_green; rule_a_blue]).2)
  = size (final_rules (load_sheet [rule_a_red; rule_a_blue; import_x]).1
                      (load_sheet [rule_b_green; rule_a_blue]).1).
Proof.
  apply (printed_total_counts_lines [rule_a_red; rule_a_blue; import_x]
           [rule_b_green; rule_a_blue]).
  discriminate.
Defined.

(** ** A sheet merged with itself *)

Lemma fresh_absorb seen (l l' : list (string * CSSRule)) :
  keys l' ⊆ keys l ∪ seen → fresh seen (l ++ l') = fresh seen l.
Proof.
  intros Hsub. rewrite fresh_app, (fresh_saturated _ l') by exact Hsub.
  apply app_nil_r.
Qed.

(** X8. When the inline sheet is the external sheet, the run emits what it
    emits for the external sheet alone: each key once, at its first
    rule. *)
Theorem merge_with_itself (sheet : list CSSRule) :
  merge_lines (load_sheet sheet).2 (load_sheet sheet).2
  = map render_entry (fresh ∅ (keyed sheet))
  ∧ merge_sheets sheet sheet = merge_sheets sheet [].
Proof.
  assert (merge_lines (load_sheet sheet).2 (load_sheet sheet).2
          = map render_entry (fresh ∅ (keyed sheet))) as Hself.
  { rewrite merge_lines_emitted, load_sheet_list. fold (keyed sheet).
    destruct (keyed sheet) as [|[k r] l] eqn:Hl; [reflexivity|].
    rewrite emitted_fresh. f_equal.
    cbn [fresh]. rewrite decide_False by set_solver.
    f_equal. cbn [app fresh]. rewrite decide_True by set_solver.
    apply fresh_absorb. set_solver. }
  split; [exact Hself|].
  unfold merge_sheets. rewrite Hself.
  rewrite merge_lines_emitted, !load_sheet_list. fold (keyed sheet).
  change (map _ []) with (@nil (string * CSSRule)).
  rewrite emitted_nil_inline. reflexivity.
Qed.

(** ** The ends of the final text *)

Lemma lstrip_idem (s : string) : Py.lstrip (Py.lstrip s) = Py.lstrip s.
Proof.
  induction s as [|c s IH]; [reflexivity|]. simpl.
  destruct (Py.isspace c) eqn:Hc; [exact IH|]. simpl. rewrite Hc. reflexivity.
Qed.

Lemma rstrip_idem (s : string) : Py.rstrip (Py.rstrip s) = Py.rstrip s.
Proof.
  induction s as [|c s IH]; [reflexivity|]. simpl.
  destruct (Py.rstrip s) as [|d r] eqn:Hr.
  - destruct (Py.isspace c) eqn:Hc; [reflexivity|]. simpl. rewrite Hc. reflexivity.
  - change (Py.rstrip (String c (String d r)))
      with (match Py.rstrip (String d r) with
            | EmptyString =>
                if Py.isspace c then EmptyString else String c EmptyString
            | t => String c t
            end).
    rewrite IH. reflexivity.
Qed.

Lemma lstrip_rstrip (s : string) :
  Py.lstrip s = s → Py.lstrip (Py.rstrip s) = Py.rstrip s.
Proof.
  destruct s as [|c s]; [reflexivity|]. simpl.
  destruct (Py.isspace c) eqn:Hc.
  - intros Heq. exfalso.
    assert (String.length (Py.lstrip s) = String.length (String c s)) as Hlen
      by (rewrite Heq; reflexivity).
    clear -Hlen. revert c Hlen. induction s as [|d s IH]; intros c; simpl.
    + discriminate.
    + destruct (Py.isspace d); simpl; [|lia]. intros Hlen.
      assert (String.length (Py.lstrip s) ≤ String.length s)%nat as Hle.
      { clear. induction s as [|e s IH]; simpl; [lia|].
        destruct (Py.isspace e); simpl; lia. }
      lia.
  - intros _. destruct (Py.rstrip s); simpl; rewrite Hc; reflexivity.
Qed.

(** X9. The final text has no white space at either end: stripping it
    again, at the head or at the tail, changes nothing. *)
Theorem final_text_is_stripped (lines : list string) :
  Py.lstrip (final_css lines) = final_css lines
  ∧ Py.rstrip (final_css lines) = final_css lines
  ∧ Py.strip (final_css lines) = final_css lines.
Proof.
  unfold final_css, Py.strip. split; [|split].
  - apply lstrip_rstrip, lstrip_idem.
  - apply rstrip_idem.
  - rewrite (lstrip_rstrip (Py.lstrip _)) by apply lstrip_idem.
    apply rstrip_idem.
Qed.

(** ** The search for the <style> element *)

Example search_first_style_element :
  extract_inline_css
    (code_points
       "<html><STYLE type='text/css'> .a{} </Style><style>.b{}</style></html>")
  = code_points ".a{}".
Proof. vm_compute. reflexivity. Qed.

Example search_without_closing_tag :
  extract_inline_css (code_points "<style>.a{}") = [].
Proof. vm_compute. reflexivity. Qed.

(** The long s stands for s in the opening tag and in the closing tag. *)
Example search_long_s :
  extract_inline_css
    (60 :: 383 :: code_points "tyle>.a{}</" ++ 383 :: code_points "tyle>")
  = code_points ".a{}".
Proof. vm_compute. reflexivity. Qed.

Section Search.

Implicit Types (lit : string) (a : ascii) (c d : N).
Implicit Types (s t w pre attrs body rest tag : list N).

Lemma occurs_unfold lit s :
  occurs lit s
  = match match_literal lit s with
    | Some _ => true
    | None =>
        match s with
        | [] => false
        | _ :: s' => occurs lit s'
        end
    end.
Proof. destruct s; reflexivity. Qed.

Lemma lazy_group_unfold s :
  lazy_group s
  = match match_literal "</style>" s with
    | Some _ => Some []
    | None =>
        match s with
        | [] => None
        | c :: s' =>
            match lazy_group s' with
            | Some group => Some (c :: group)
            | None => None
            end
        end
    end.
Proof. destruct s; reflexivity. Qed.

Lemma search_style_unfold s :
  search_style s
  = match match_style s with
    | Some group => Some group
    | None =>
        match s with
        | [] => None
        | _ :: s' => search_style s'
        end
    end.
Proof. destruct s; reflexivity. Qed.

Lemma occurs_head lit s rest :
  match_literal lit s = Some rest → occurs lit s = true.
Proof. intros Hm. rewrite occurs_unfold, Hm. reflexivity. Qed.

Lemma occurs_tail lit c s : occurs lit (c :: s) = false → occurs lit s = false.
Proof.
  rewrite occurs_unfold.
  destruct (match_literal lit (c :: s)); [discriminate|auto].
Qed.

Lemma occurs_no_match lit s : occurs lit s = false → match_literal lit s = None.
Proof.
  rewrite occurs_unfold.
  destruct (match_literal lit s); [discriminate|reflexivity].
Qed.

Lemma occurs_app_r lit w s : occurs lit s = true → occurs lit (w ++ s) = true.
Proof.
  intros Hs. induction w as [|c w IH]; [exact Hs|].
  cbn [app]. rewrite occurs_unfold.
  destruct (match_literal lit (c :: w ++ s)); [reflexivity|exact IH].
Qed.

(** What is left behind a literal is a tail of the text. *)
Lemma match_literal_tail lit s rest :
  match_literal lit s = Some rest → ∃ w, s = w ++ rest.
Proof.
  revert s. induction lit as [|a lit IH]; intros s Hm.
  - injection Hm as ->. by exists [].
  - destruct s as [|c s]; [discriminate|]. cbn [match_literal] in Hm.
    destruct (matches a c); [|discriminate].
    destruct (IH _ Hm) as [w ->]. by exists (c :: w).
Qed.

(** A tag that the literal matches, matched in front of any text. *)
Lemma match_literal_app lit tag s :
  match_literal lit tag = Some [] → match_literal lit (tag ++ s) = Some s.
Proof.
  revert tag. induction lit as [|a lit IH]; intros tag Hm.
  - injection Hm as ->. reflexivity.
  - destruct tag as [|c tag]; [discriminate|].
    cbn [match_literal app] in *.
    destruct (matches a c); [|discriminate]. apply IH, Hm.
Qed.

(** A literal that matches from inside a text into a tag fits in the text,
    since only the head of a tag is an opening angle bracket. *)
Lemma match_literal_before lit s c t rest :
  Forall (λ b, matches b c = false) (list_ascii_of_string lit) →
  match_literal lit (s ++ c :: t) = Some rest →
  ∃ rest', match_literal lit s = Some rest'.
Proof.
  revert s. induction lit as [|a lit IH]; intros s Hne Hm; [by eexists|].
  apply Forall_cons in Hne as [Ha Hne].
  destruct s as [|d s]; cbn [match_literal app] in *.
  - rewrite Ha in Hm. discriminate.
  - destruct (matches a d); [|discriminate].
    apply (IH s Hne Hm).
Qed.

Lemma match_literal_inside a lit d s c t rest :
  Forall (λ b, matches b c = false) (list_ascii_of_string lit) →
  match_literal (String a lit) ((d :: s) ++ c :: t) = Some rest →
  occurs (String a lit) (d :: s) = true.
Proof.
  intros Hne Hm.
  assert (∃ rest', match_literal (String a lit) (d :: s) = Some rest')
    as [rest' Hm'].
  { cbn [match_literal app] in *. destruct (matches a d); [|discriminate].
    apply (match_literal_before _ _ _ _ _ Hne Hm). }
  apply (occurs_head _ _ _ Hm').
Qed.

Lemma matches_bracket c : matches "<" c = true → c = 60.
Proof.
  unfold matches. change (ignorecase "<") with [60]. cbn [existsb].
  rewrite orb_false_r. apply N.eqb_eq.
Qed.

(** A tag starts with an opening angle bracket. *)
Lemma match_literal_bracket a lit tag rest :
  a = "<"%char →
  match_literal (String a lit) tag = Some rest → ∃ tag', tag = 60 :: tag'.
Proof.
  intros -> Hm. destruct tag as [|c tag]; [discriminate|].
  cbn [match_literal] in Hm.
  destruct (matches "<" c) eqn:Hc; [|discriminate].
  apply matches_bracket in Hc as ->. by eexists.
Qed.

Lemma after_bracket_tail s body :
  after_bracket s = Some body → ∃ w, s = w ++ body.
Proof.
  induction s as [|c s IH]; [discriminate|]. cbn [after_bracket].
  destruct (c =? 62); [intros [= ->]; by exists [c]|].
  intros [w ->]%IH. by exists (c :: w).
Qed.

Lemma after_bracket_first attrs s :
  occurs ">" attrs = false →
  after_bracket (attrs ++ [62] ++ s) = Some s.
Proof.
  induction attrs as [|c attrs IH]; [reflexivity|]. intros Hno.
  cbn [app after_bracket]. destruct (c =? 62) eqn:Hc.
  - apply N.eqb_eq in Hc. subst c.
    rewrite occurs_unfold in Hno. discriminate Hno.
  - apply IH, (occurs_tail _ _ _ Hno).
Qed.

Lemma lazy_group_closed body group :
  lazy_group body = Some group → occurs "</style>" body = true.
Proof.
  revert group. induction body as [|c body IH]; intros group;
    rewrite lazy_group_unfold.
  - discriminate.
  - destruct (match_literal "</style>" (c :: body)) as [rest|] eqn:Hm.
    + intros _. apply (occurs_head _ _ _ Hm).
    + destruct (lazy_group body) as [g|]; [|discriminate]. intros _.
      rewrite occurs_unfold, Hm. apply (IH g eq_refl).
Qed.

Lemma lazy_group_first body tag rest :
  occurs "</style>" body = false →
  match_literal "</style>" tag = Some [] →
  lazy_group (body ++ tag ++ rest) = Some body.
Proof.
  intros Hbody Htag. induction body as [|c body IH]; rewrite lazy_group_unfold.
  - cbn [app]. rewrite (match_literal_app _ _ _ Htag). reflexivity.
  - destruct (match_literal_bracket _ _ _ _ eq_refl Htag) as [tag' ->].
    destruct (match_literal "</style>" ((c :: body) ++ (60 :: tag') ++ rest))
      as [r|] eqn:Hm.
    + apply match_literal_inside in Hm; [congruence|].
      repeat constructor.
    + cbn [app] in IH |- *. rewrite IH; [reflexivity|].
      apply (occurs_tail _ _ _ Hbody).
Qed.

Lemma match_style_found s group :
  match_style s = Some group →
  occurs "<style" s = true ∧ occurs "</style>" s = true.
Proof.
  unfold match_style.
  destruct (match_literal "<style" s) as [rest|] eqn:Hm; [|discriminate].
  destruct (after_bracket rest) as [body|] eqn:Hb; [|discriminate].
  intros Hg%lazy_group_closed.
  split; [apply (occurs_head _ _ _ Hm)|].
  destruct (match_literal_tail _ _ _ Hm) as [w1 ->].
  destruct (after_bracket_tail _ _ Hb) as [w2 ->].
  do 2 apply occurs_app_r. exact Hg.
Qed.

Lemma search_style_found s group :
  search_style s = Some group →
  occurs "<style" s = true ∧ occurs "</style>" s = true.
Proof.
  induction s as [|c s IH]; rewrite search_style_unfold.
  - destruct (match_style []) eqn:Hm; [|discriminate].
    intros _. apply (match_style_found _ _ Hm).
  - destruct (match_style (c :: s)) eqn:Hm.
    + intros _. apply (match_style_found _ _ Hm).
    + intros [H1 H2]%IH.
      split; apply (occurs_app_r _ [c]); assumption.
Qed.

(** No match starts in front of the first opening tag. *)
Lemma search_style_skip pre t :
  occurs "<style" pre = false →
  search_style (pre ++ 60 :: t) = search_style (60 :: t).
Proof.
  intros Hpre. induction pre as [|d pre IH]; [reflexivity|].
  rewrite search_style_unfold.
  assert (match_style ((d :: pre) ++ 60 :: t) = None) as ->.
  { unfold match_style.
    destruct (match_literal "<style" ((d :: pre) ++ 60 :: t))
      as [r|] eqn:Hm; [|reflexivity].
    apply match_literal_inside in Hm; [congruence|].
    repeat constructor. }
  cbn [app]. apply IH, (occurs_tail _ _ _ Hpre).
Qed.

Lemma search_style_first pre open_tag attrs body close_tag rest :
  occurs "<style" pre = false →
  match_literal "<style" open_tag = Some [] →
  occurs ">" attrs = false →
  occurs "</style>" body = false →
  match_literal "</style>" close_tag = Some [] →
  search_style
    (pre ++ open_tag ++ attrs ++ [62] ++ body ++ close_tag ++ rest)
  = Some body.
Proof.
  intros Hpre Hopen Hattrs Hbody Hclose.
  destruct (match_literal_bracket _ _ _ _ eq_refl Hopen) as [tag' ->].
  change ((60 :: tag') ++ ?x) with (60 :: (tag' ++ x)).
  rewrite (search_style_skip _ _ Hpre).
  rewrite search_style_unfold. unfold match_style.
  change (60 :: (tag' ++ ?x)) with ((60 :: tag') ++ x).
  rewrite (match_literal_app _ _ _ Hopen).
  rewrite (after_bracket_first _ _ Hattrs).
  rewrite (lazy_group_first _ _ _ Hbody Hclose). reflexivity.
Qed.

(** A literal does not reach over a character that none of its characters
    matches. *)
Lemma occurs_snoc lit s c :
  lit ≠ "" →
  Forall (λ b, matches b c = false) (list_ascii_of_string lit) →
  occurs lit s = false →
  occurs lit (s ++ [c]) = false.
Proof.
  intros Hnil Hne. induction s as [|d s IH]; intros Hs.
  - destruct lit as [|a lit]; [done|].
    apply Forall_cons in Hne as [Ha _].
    cbn. rewrite Ha. reflexivity.
  - cbn [app]. rewrite occurs_unfold.
    destruct (match_literal lit (d :: s ++ [c])) as [r|] eqn:Hm.
    + destruct (match_literal_before lit (d :: s) c [] r Hne Hm) as [r' Hm'].
      rewrite (occurs_no_match _ _ Hs) in Hm'. discriminate.
    + apply IH, (occurs_tail _ _ _ Hs).
Qed.

Lemma occurs_cons lit a c s :
  matches a c = false →
  occurs (String a lit) (c :: s) = occurs (String a lit) s.
Proof.
  intros Hc. rewrite occurs_unfold. cbn [match_literal]. rewrite Hc.
  reflexivity.
Qed.

End Search.

Lemma extract_inline_css_none (html_content : list N) :
  occurs "<style" html_content = false
  ∨ occurs "</style>" html_content = false →
  extract_inline_css html_content = [].
Proof.
  intros Hno. unfold extract_inline_css.
  destruct (search_style html_content) as [group|] eqn:Hs; [|reflexivity].
  apply search_style_found in Hs as [H1 H2]. destruct Hno; congruence.
Qed.

(** X10. A document in which no position matches the opening tag, or none
    the closing tag, in any letter case that the search accepts, gives
    the empty inline text. *)
Theorem no_style_element_no_inline_css (html_content : list N) :
  occurs "<style" html_content = false
  ∨ occurs "</style>" html_content = false →
  extract_inline_css html_content = [].
Proof. apply extract_inline_css_none. Qed.

Lemma no_style_element_no_inline_css_witness :
  extract_inline_css (code_points "<html><STYLE>.a{}</html>") = [].
Proof.
  apply no_style_element_no_inline_css. right. vm_compute. reflexivity.
Defined.

(** X11. The inline text is the trimmed content of the first style element
    of the document: of the first opening tag, in any letter case that
    the search accepts and with any attributes, up to the first closing
    tag behind it; what follows that closing tag, later style elements
    too, is not read. *)
Theorem first_style_element_extracted
    (pre open_tag attrs body close_tag rest : list N) :
  occurs "<style" pre = false →
  match_literal "<style" open_tag = Some [] →
  occurs ">" attrs = false →
  occurs "</style>" body = false →
  match_literal "</style>" close_tag = Some [] →
  search_style
    (pre ++ open_tag ++ attrs ++ [62] ++ body ++ close_tag ++ rest)
  = Some body
  ∧ extract_inline_css
      (pre ++ open_tag ++ attrs ++ [62] ++ body ++ close_tag ++ rest)
    = Unicode.strip body.
Proof.
  intros Hpre Hopen Hattrs Hbody Hclose. unfold extract_inline_css.
  rewrite (search_style_first _ _ _ _ _ _ Hpre Hopen Hattrs Hbody Hclose).
  split; reflexivity.
Qed.

(** An opening tag in capitals and a closing tag with a long s. *)
Lemma first_style_element_extracted_witness :
  search_style
    (code_points "<html><head>" ++ code_points "<STYLE"
       ++ code_points " media='all'" ++ [62] ++ code_points " .a{} "
       ++ (60 :: 47 :: 383 :: code_points "tyle>")
       ++ code_points "<style>.b{}</style></head></html>")
  = Some (code_points " .a{} ")
  ∧ extract_inline_css
      (code_points "<html><head>" ++ code_points "<STYLE"
         ++ code_points " media='all'" ++ [62] ++ code_points " .a{} "
         ++ (60 :: 47 :: 383 :: code_points "tyle>")
         ++ code_points "<style>.b{}</style></head></html>")
    = Unicode.strip (code_points " .a{} ").
Proof.
  apply first_style_element_extracted; vm_compute; reflexivity.
Defined.

(** ** The printed block read back *)

Lemma isspace_code_point (c : ascii) :
  Unicode.isspace (N_of_ascii c) = Py.isspace c.
Proof. destruct c as [[] [] [] [] [] [] [] []]; vm_compute; reflexivity. Qed.

Lemma lstrip_code_points (s : string) :
  Unicode.lstrip (code_points s) = code_points (Py.lstrip s).
Proof.
  induction s as [|c s IH]; [reflexivity|].
  cbn [code_points Unicode.lstrip Py.lstrip]. rewrite isspace_code_point.
  destruct (Py.isspace c); [exact IH|reflexivity].
Qed.

Lemma rstrip_code_points (s : string) :
  Unicode.rstrip (code_points s) = code_points (Py.rstrip s).
Proof.
  induction s as [|c s IH]; [reflexivity|].
  cbn [code_points Unicode.rstrip Py.rstrip]. rewrite IH, isspace_code_point.
  destruct (Py.rstrip s); cbn [code_points]; [|reflexivity].
  destruct (Py.isspace c); reflexivity.
Qed.

(** The final text of the merge has no white space at either end, read as
    code points too. *)
Lemma final_css_code_points (lines : list string) :
  Unicode.lstrip (code_points (final_css lines)) = code_points (final_css lines)
  ∧ Unicode.rstrip (code_points (final_css lines))
    = code_points (final_css lines).
Proof.
  rewrite lstrip_code_points, rstrip_code_points. unfold final_css, Py.strip.
  rewrite (lstrip_rstrip (Py.lstrip _)) by apply lstrip_idem.
  rewrite rstrip_idem. split; reflexivity.
Qed.

Lemma lstrip_length (s : list N) : (length (Unicode.lstrip s) ≤ length s)%nat.
Proof.
  induction s as [|c s IH]; [reflexivity|]. cbn [Unicode.lstrip].
  destruct (Unicode.isspace c); cbn [length]; lia.
Qed.

Lemma lstrip_fixed (c : N) (s : list N) :
  Unicode.lstrip (c :: s) = c :: s → Unicode.isspace c = false.
Proof.
  cbn [Unicode.lstrip]. destruct (Unicode.isspace c); [|reflexivity].
  intros Heq. pose proof (lstrip_length s) as Hlen.
  rewrite Heq in Hlen. cbn [length] in Hlen. lia.
Qed.

Lemma rstrip_snoc (s : list N) (c : N) :
  Unicode.isspace c = true → Unicode.rstrip (s ++ [c]) = Unicode.rstrip s.
Proof.
  intros Hc. induction s as [|d s IH].
  - cbn. rewrite Hc. reflexivity.
  - cbn [app Unicode.rstrip]. rewrite IH. reflexivity.
Qed.

(** The line feeds that the printed block puts around a stripped text are
    stripped again. *)
Lemma strip_between_line_feeds (css : list N) :
  Unicode.lstrip css = css →
  Unicode.rstrip css = css →
  Unicode.strip ([10] ++ css ++ [10]) = css.
Proof.
  intros Hl Hr. unfold Unicode.strip.
  change (Unicode.lstrip ([10] ++ css ++ [10]))
    with (Unicode.lstrip (css ++ [10])).
  destruct css as [|c css]; [reflexivity|].
  cbn [app Unicode.lstrip]. rewrite (lstrip_fixed _ _ Hl).
  change (c :: css ++ [10]) with ((c :: css) ++ [10]).
  rewrite (rstrip_snoc (c :: css) 10 eq_refl). exact Hr.
Qed.

(** The block that the run prints is a document with one style
    element. *)
Lemma search_style_block (css : list N) :
  occurs "</style>" css = false →
  search_style (style_block css) = Some ([10] ++ css ++ [10]).
Proof.
  intros Hcss.
  assert (style_block css
          = [] ++ code_points "<style" ++ [] ++ [62] ++ ([10] ++ css ++ [10])
               ++ code_points "</style>" ++ []) as ->.
  { unfold style_block. rewrite app_nil_r, <- !app_assoc. reflexivity. }
  apply (search_style_first [] (code_points "<style") [] ([10] ++ css ++ [10])
           (code_points "</style>") []); try reflexivity.
  cbn [app]. rewrite (occurs_cons "/style>" "<" 10 _ eq_refl).
  apply occurs_snoc; [done|repeat constructor|exact Hcss].
Qed.

(** X13. The block that the run prints around a text without white space
    at its ends, as the final text is, gives that text as its inline text
    when it is read back as a document, unless the text itself holds a
    closing style tag. *)
Theorem printed_block_read_back (css : list N) :
  Unicode.lstrip css = css →
  Unicode.rstrip css = css →
  occurs "</style>" css = false →
  extract_inline_css (style_block css) = css.
Proof.
  intros Hl Hr Hcss. unfold extract_inline_css.
  rewrite (search_style_block _ Hcss).
  apply (strip_between_line_feeds _ Hl Hr).
Qed.

Lemma printed_block_read_back_witness :
  extract_inline_css
    (style_block
       (code_points
          (final_css (merge_lines (load_sheet [charset_head; rule_a_red]).2
                                  (load_sheet [charset_head; rule_b_green]).2))))
  = code_points
      (final_css (merge_lines (load_sheet [charset_head; rule_a_red]).2
                              (load_sheet [charset_head; rule_b_green]).2)).
Proof.
  apply printed_block_read_back.
  - apply final_css_code_points.
  - apply final_css_code_points.
  - vm_compute. reflexivity.
Defined.

(** ** Selectors nested in a media rule *)

Lemma string_length_app (a b : string) :
  String.length (a +:+ b) = (String.length a + String.length b)%nat.
Proof.
  induction a as [|c a IH]; [reflexivity|].
  rewrite string_app_cons. simpl. rewrite IH. reflexivity.
Qed.

Lemma string_app_inj_r (a b s : string) : a +:+ s = b +:+ s → a = b.
Proof.
  revert b. induction a as [|c a IH]; intros [|d b] Heq.
  - reflexivity.
  - apply (f_equal String.length) in Heq.
    rewrite string_app_nil_l, string_app_cons in Heq. simpl in Heq.
    rewrite string_length_app in Heq. lia.
  - apply (f_equal String.length) in Heq.
    rewrite string_app_nil_l, string_app_cons in Heq. simpl in Heq.
    rewrite string_length_app in Heq. lia.
  - rewrite !string_app_cons in Heq. injection Heq as -> Heq.
    f_equal. apply IH, Heq.
Qed.

(** X12. A selector nested in a media rule enters the key as it is
    written, neither trimmed nor put in lower case: two media rules of one
    query with one nested rule each, of the same declarations, have
    different keys as soon as the two selectors differ, be it in letter
    case only. *)
Theorem nested_selector_compared_as_written
    (query sel1 sel2 : string) (st : list Property.t) :
  sel1 ≠ sel2 →
  get_rule_key (CSSMediaRule query [WithSelector sel1 st])
  ≠ get_rule_key (CSSMediaRule query [WithSelector sel2 st]).
Proof.
  intros Hne Hkey. apply Hne. unfold get_rule_key in Hkey.
  apply (inj (String.append "media:")) in Hkey.
  apply (inj (String.append query)) in Hkey.
  apply (inj (String.append ":")) in Hkey.
  change (block_signature sel1 st = block_signature sel2 st) in Hkey.
  unfold block_signature in Hkey.
  apply (string_app_inj_r _ _ _ Hkey).
Qed.

Lemma nested_selector_compared_as_written_witness :
  get_rule_key (CSSMediaRule "print" [WithSelector ".Menu" [color "red"]])
  ≠ get_rule_key (CSSMediaRule "print" [WithSelector ".menu" [color "red"]])
  ∧ get_rule_key (CSSStyleRule ".Menu" [color "red"])
    = get_rule_key (CSSStyleRule ".menu" [color "red"]).
Proof.
  split; [|reflexivity].
  apply (nested_selector_compared_as_written "print" ".Menu" ".menu").
  discriminate.
Defined.

(** ** The order of the emitted rules *)

(** X15. The rules of each source are emitted in the order of that source:
    the lines are those of the first external rule, then of inline rules
    in the order of the inline list, then of other external rules in the
    order of the external list. *)
Theorem order_within_each_source
    (ext_list inline_list : list (string * CSSRule)) :
  ∃ from_inline from_ext,
    merge_lines ext_list inline_list
    = map render_entry (take 1 ext_list ++ from_inline ++ from_ext)
    ∧ sublist from_inline inline_list
    ∧ sublist from_ext (drop 1 ext_list).
Proof.
  rewrite merge_lines_emitted. destruct ext_list as [|[k r] rest].
  - exists [], []. split; [reflexivity|]. split; [apply sublist_nil_l|constructor].
  - exists (fresh {[k]} inline_list), (fresh ({[k]} ∪ keys inline_list) rest).
    split; [reflexivity|]. split; apply fresh_sublist.
Qed.
